(** * anonchat: the room registry and broadcast protocol of [app.py]

    A shallow embedding of the server side of the anonymous room chat:
    the process-wide [rooms] registry (a [defaultdict(dict)] of
    insertion-ordered dicts), [broadcast], [list_rooms] and the three
    phases of [websocket_endpoint] (join, relay loop, cleanup).

    Conventions of the embedding.
    - A websocket is an opaque handle, here a natural number.
    - A Python [dict] is an association list in insertion order whose
      keys are pairwise distinct ([Dict]).
    - [send_text] may raise: whether the [t]-th send of the run, to
      connection [ws], succeeds is given by an oracle [send_ok t ws].
      Every attempted send is recorded in the [log] of the world.
    - [json.loads] belongs to the Python library, not to the program:
      it is a parameter [json_loads], [None] standing for a raised
      exception.
    - The random draws of [secrets] (the two bytes of [token_hex(2)],
      the hue of [randbelow(360)]) are arguments of
      [websocket_endpoint].
    - A Python [str] is a [string], one [ascii] per character.
    - [json.dumps] is left out: the log records the dict that is sent.
    - Each operation runs to completion; interleavings of several
      handlers at their [await] points are not modelled. *)

From Stdlib Require Import String Ascii List Bool Arith PeanoNat NArith Lia.
From Stdlib Require Import Strings.Byte DecimalString.
Import ListNotations.
Open Scope string_scope.
Open Scope list_scope.

Set Implicit Arguments.

(** ** Keys with a boolean equality *)

Class EqKey (K : Type) := {
  keqb : K -> K -> bool;
  keqb_spec : forall a b : K, reflect (a = b) (keqb a b)
}.

#[global] Instance string_EqKey : EqKey string :=
  {| keqb := String.eqb; keqb_spec := String.eqb_spec |}.

#[global] Instance nat_EqKey : EqKey nat :=
  {| keqb := Nat.eqb; keqb_spec := Nat.eqb_spec |}.

(** ** Python dictionaries, in insertion order *)

Module Dict.
Section Ops.
Context {K V : Type} `{EqKey K}.

Definition t := list (K * V).

(** [d.get(k)] *)
Fixpoint get (k : K) (d : t) : option V :=
  match d with
  | [] => None
  | (k', v) :: r => if keqb k' k then Some v else get k r
  end.

(** [k in d] *)
Definition contains (k : K) (d : t) : bool :=
  match get k d with Some _ => true | None => false end.

(** [d[k] = v]: an existing key keeps its position, a new one goes last. *)
Fixpoint set (k : K) (v : V) (d : t) : t :=
  match d with
  | [] => [(k, v)]
  | (k', v') :: r =>
      if keqb k' k then (k', v) :: r else (k', v') :: set k v r
  end.

(** [del d[k]] (on a present key; a no-op here on an absent one). *)
Definition del (k : K) (d : t) : t :=
  filter (fun kv => negb (keqb (fst kv) k)) d.

(** [list(d.keys())] *)
Definition keys (d : t) : list K := map fst d.

(** Keys are pairwise distinct. *)
Definition wf (d : t) : Prop := NoDup (keys d).
End Ops.
#[global] Arguments t : clear implicits.
End Dict.

(** ** Identities *)

(** A websocket: an opaque handle. *)
Abbreviation conn := nat (only parsing).

Record Info := mkInfo { nick : string; color : string }.

Definition hex_digit (n : N) : ascii :=
  match n with
  | 0%N => "0" | 1%N => "1" | 2%N => "2" | 3%N => "3"
  | 4%N => "4" | 5%N => "5" | 6%N => "6" | 7%N => "7"
  | 8%N => "8" | 9%N => "9" | 10%N => "a" | 11%N => "b"
  | 12%N => "c" | 13%N => "d" | 14%N => "e" | _ => "f"
  end%char.

(** [bytes.hex()] on one byte: two lowercase hexadecimal digits. *)
Definition hex_byte (b : byte) : string :=
  String (hex_digit (N.div (Byte.to_N b) 16))
    (String (hex_digit (N.modulo (Byte.to_N b) 16)) EmptyString).

(** [secrets.token_hex(nbytes)] on the bytes drawn by [token_bytes]. *)
Fixpoint token_hex (bs : list byte) : string :=
  match bs with
  | [] => EmptyString
  | b :: r => hex_byte b ++ token_hex r
  end.

(** [str(n)] of a non-negative integer. *)
Definition str_of_nat (n : nat) : string :=
  NilEmpty.string_of_uint (Nat.to_uint n).

(** [f"Anon-{secrets.token_hex(2)}"], on the two bytes drawn. *)
Definition make_nick (b1 b2 : byte) : string :=
  "Anon-" ++ token_hex [b1; b2].

(** [f"hsl({secrets.randbelow(360)} 70% 55%)"], on the hue drawn. *)
Definition make_color (hue : nat) : string :=
  "hsl(" ++ str_of_nat hue ++ " 70% 55%)".

Definition make_info (b1 b2 : byte) (hue : nat) : Info :=
  {| nick := make_nick b1 b2; color := make_color hue |}.


(** ** JSON values and envelopes *)

(** What [json.loads] returns.  A number is kept as its literal: the
    handler never looks inside one. *)
#[warnings="-register-all"] Inductive json :=
| JNull
| JBool (b : bool)
| JNum (lit : string)
| JStr (s : string)
| JArr (l : list json)
| JObj (o : Dict.t string json).

(** The dicts handed to [json.dumps] and [send_text].  The text of a
    [Msg] is whatever the slice of the client's value is, a string or a
    list. *)
Inductive envelope :=
| Meta (you : Info)
| RoomsEnv (room_list : list string)
| Msg (text : json) (nick color : string)
| System (text nick color system : string).

(** [s[:n]] on a string. *)
Fixpoint str_take (n : nat) (s : string) : string :=
  match n, s with
  | S n', String c r => String c (str_take n' r)
  | _, _ => EmptyString
  end.

(** [v[:2000]]: defined on strings and lists, a [TypeError] (here
    [None]) on every other value. *)
Definition slice2000 (v : json) : option json :=
  match v with
  | JStr s => Some (JStr (str_take 2000 s))
  | JArr l => Some (JArr (firstn 2000 l))
  | _ => None
  end.

(** [v == 'msg'] for the value of [payload.get('type')]. *)
Definition is_msg (v : option json) : bool :=
  match v with
  | Some (JStr s) => String.eqb s "msg"
  | _ => false
  end.

(** ** The registry and the world *)

Definition members := Dict.t conn Info.
Definition registry := Dict.t string members.

(** One call of [send_text]: the recipient, the envelope and whether
    the call returned ([true]) or raised ([false]). *)
Record attempt := mkAttempt { to : conn; env : envelope; ok : bool }.

Record world := mkWorld { rooms : registry; log : list attempt }.

Definition set_rooms (r : registry) (w : world) : world :=
  {| rooms := r; log := log w |}.

(** [rooms[room]] on the [defaultdict(dict)]: a missing key is first
    bound to a new empty dict. *)
Definition getitem (room : string) (r : registry) : members * registry :=
  match Dict.get room r with
  | Some m => (m, r)
  | None => ([], Dict.set room [] r)
  end.

(** [[r for r, m in rooms.items() if len(m) > 0]] *)
Definition active_rooms (r : registry) : list string :=
  map fst (filter (fun rm => Nat.ltb 0 (length (snd rm))) r).

(** [GET /rooms] *)
Definition list_rooms (w : world) : list string := active_rooms (rooms w).

(** [q.get('room', 'lobby') or 'lobby'] *)
Definition resolve_room (q : option string) : string :=
  match q with
  | Some s => if String.eqb s "" then "lobby" else s
  | None => "lobby"
  end.

(** The member mapping of a room, empty for a room without an entry
    (a read that, unlike [getitem], leaves the registry alone). *)
Definition members_of (room : string) (r : registry) : members :=
  match Dict.get room r with Some m => m | None => [] end.

(** A member mapping without the connections of [l]. *)
Definition drop_all (l : list conn) (m : members) : members :=
  fold_left (fun d ws => Dict.del ws d) l m.

Definition member_count (room : string) (r : registry) : nat :=
  length (members_of room r).



(** What the relay loop reads: a text frame, or the closure (or any
    other failure) of [receive_text]. *)
Inductive recv := Text (data : string) | Disconnect.

Section Server.
(** Whether the [t]-th [send_text] of the run, to [ws], returns. *)
Variable send_ok : nat -> conn -> bool.
(** [json.loads]; [None] when it raises. *)
Variable json_loads : string -> option json.

Definition send_text (ws : conn) (m : envelope) (w : world) : bool * world :=
  let ok := send_ok (length (log w)) ws in
  (ok, {| rooms := rooms w; log := log w ++ [mkAttempt ws m ok] |}).

(** The [for ws in conns] loop of [broadcast]. *)
Fixpoint send_each (conns : list conn) (m : envelope)
    (to_remove : list conn) (w : world) : list conn * world :=
  match conns with
  | [] => (to_remove, w)
  | ws :: rest =>
      let (ok, w') := send_text ws m w in
      send_each rest m (if ok then to_remove else to_remove ++ [ws]) w'
  end.

(** [if ws in rooms[room]: del rooms[room][ws]] *)
Definition prune (room : string) (r : registry) (ws : conn) : registry :=
  let (m, r1) := getitem room r in
  if Dict.contains ws m then Dict.set room (Dict.del ws m) r1 else r1.

Definition broadcast (room : string) (m : envelope) (w : world) : world :=
  let (mem, r1) := getitem room (rooms w) in
  let conns := Dict.keys mem in
  let (to_remove, w1) := send_each conns m [] (set_rooms r1 w) in
  match to_remove with
  | [] => w1
  | _ :: _ => set_rooms (fold_left (prune room) to_remove (rooms w1)) w1
  end.

(** [rooms[room][websocket] = info] *)
Definition register (room : string) (ws : conn) (info : Info)
    (r : registry) : registry :=
  let (m, r1) := getitem room r in
  Dict.set room (Dict.set ws info m) r1.

Definition join_notice (info : Info) : envelope :=
  System (nick info ++ " joined.") "System" "#666" "join".

Definition leave_notice (left : string) : envelope :=
  System (left ++ " left.") "System" "#666" "leave".

(** [websocket_endpoint] up to the relay loop.  The boolean is
    [false] when the unguarded send of the meta envelope raises: the
    exception leaves the handler before its [try], so nothing more
    runs, not even the cleanup. *)
Definition join (room : string) (ws : conn) (info : Info) (w : world)
    : world * bool :=
  let w1 := set_rooms (register room ws info (rooms w)) w in
  let (sent, w2) := send_text ws (Meta info) w1 in
  if sent then
    let w3 := broadcast room (join_notice info) w2 in
    let room_list := active_rooms (rooms w3) in
    (broadcast room (RoomsEnv room_list) w3, true)
  else (w2, false).

(** The body of the [while True] loop on a received text.  [None]
    stands for an exception raised by the body ([AttributeError] of
    [payload.get] on a non-dict, [TypeError] of the slice). *)
Definition on_text (room : string) (ws : conn) (info : Info)
    (data : string) (w : world) : option world :=
  let payload :=
    match json_loads data with
    | Some p => p
    | None => JObj [("type", JStr "msg"); ("text", JStr data)]
    end in
  match payload with
  | JObj o =>
      if is_msg (Dict.get "type" o) then
        let v := match Dict.get "text" o with Some v => v | None => JStr "" end in
        match slice2000 v with
        | Some text =>
            let (m, r1) := getitem room (rooms w) in
            let sender := match Dict.get ws m with Some i => i | None => info end in
            Some (broadcast room (Msg text (nick sender) (color sender))
                    (set_rooms r1 w))
        | None => None
        end
      else Some w
  | _ => None
  end.

(** The first locked block of the [finally]: the departing connection
    is taken out of its room and an emptied room is deleted.  Returns
    the name for the leave notice and the registry. *)
Definition deregister (room : string) (ws : conn) (r : registry)
    : string * registry :=
  let (m, r1) := getitem room r in
  let (left, r2) :=
    match Dict.get ws m with
    | Some i => (nick i, Dict.set room (Dict.del ws m) r1)
    | None => ("Someone", r1)
    end in
  let (m2, r3) := getitem room r2 in
  (left, if Nat.eqb (length m2) 0 then Dict.del room r3 else r3).

(** The [finally] block. *)
Definition cleanup (room : string) (ws : conn) (w : world) : world :=
  let (left, r) := deregister room ws (rooms w) in
  let w1 := broadcast room (leave_notice left) (set_rooms r w) in
  let room_list := active_rooms (rooms w1) in
  if Dict.contains room (rooms w1)
  then broadcast room (RoomsEnv room_list) w1
  else w1.

(** One turn of the relay loop.  The boolean is [true] when the loop
    goes on, [false] when the handler has left it and cleaned up. *)
Definition relay_step (room : string) (ws : conn) (info : Info)
    (ev : recv) (w : world) : world * bool :=
  match ev with
  | Text data =>
      match on_text room ws info data w with
      | Some w' => (w', true)
      | None => (cleanup room ws w, false)
      end
  | Disconnect => (cleanup room ws w, false)
  end.

(** The relay loop of one handler on the frames it reads, run on its
    own: what other handlers do to the registry while this one waits
    in [receive_text] is not part of it. *)
Fixpoint relay (room : string) (ws : conn) (info : Info)
    (events : list recv) (w : world) : world * bool :=
  match events with
  | [] => (w, true)
  | ev :: rest =>
      let (w', going) := relay_step room ws info ev w in
      if going then relay room ws info rest w' else (w', false)
  end.

(** [websocket_endpoint] on the query parameter, the random draws and
    the frames received. *)
Definition websocket_endpoint (q : option string) (ws : conn)
    (b1 b2 : byte) (hue : nat) (events : list recv) (w : world)
    : world * bool :=
  let room := resolve_room q in
  let info := make_info b1 b2 hue in
  let (w1, joined) := join room ws info w in
  if joined then relay room ws info events w1 else (w1, false).

(** *** The trace of a broadcast, for the statements below *)

(** The attempts a send loop starting at time [t] appends to the log. *)
Fixpoint attempts (t : nat) (conns : list conn) (m : envelope) : list attempt :=
  match conns with
  | [] => []
  | ws :: rest => mkAttempt ws m (send_ok t ws) :: attempts (S t) rest m
  end.

(** The connections whose send raises in that loop. *)
Fixpoint failed (t : nat) (conns : list conn) : list conn :=
  match conns with
  | [] => []
  | ws :: rest =>
      if send_ok t ws then failed (S t) rest else ws :: failed (S t) rest
  end.

End Server.

(** What a connection has received: the envelopes of the sends to it
    that returned, in order. *)
Definition received (ws : conn) (l : list attempt) : list envelope :=
  map env (filter (fun a => Nat.eqb (to a) ws && ok a) l).

(** The identity a relayed message is signed with:
    [rooms[room].get(websocket, info)]. *)
Definition sender_of (room : string) (ws : conn) (info : Info)
    (r : registry) : Info :=
  match Dict.get ws (members_of room r) with Some i => i | None => info end.

(** *** Reading a token back *)

Definition is_hex_digit (c : ascii) : bool :=
  match c with
  | "0" | "1" | "2" | "3" | "4" | "5" | "6" | "7" | "8" | "9"
  | "a" | "b" | "c" | "d" | "e" | "f" => true
  | _ => false
  end%char.

Definition hex_val (c : ascii) : N :=
  match c with
  | "0" => 0 | "1" => 1 | "2" => 2 | "3" => 3 | "4" => 4
  | "5" => 5 | "6" => 6 | "7" => 7 | "8" => 8 | "9" => 9
  | "a" => 10 | "b" => 11 | "c" => 12 | "d" => 13 | "e" => 14
  | _ => 15
  end%char%N.

Definition unhex_byte (h l : ascii) : option byte :=
  Byte.of_N (16 * hex_val h + hex_val l).

(** *** Sample environments, for the examples *)

(** Every send returns. *)
Definition all_ok : nat -> conn -> bool := fun _ _ => true.

(** The sends to the connections of [l] raise, the others return. *)
Definition dead (l : list conn) : nat -> conn -> bool :=
  fun _ ws => negb (existsb (Nat.eqb ws) l).

(** The first [n] sends of the run return, the later ones raise. *)
Definition ok_until (n : nat) : nat -> conn -> bool :=
  fun t _ => Nat.ltb t n.

Definition dq : string := String (ascii_of_nat 34) EmptyString.

(** [c * n] *)
Fixpoint replicate (n : nat) (c : ascii) : string :=
  match n with
  | 0 => EmptyString
  | S n' => String c (replicate n' c)
  end.

(** The frame [{"type":"msg","text":t}] for a text [t] without
    characters to escape. *)
Definition msg_frame (t : string) : string :=
  "{" ++ dq ++ "type" ++ dq ++ ":" ++ dq ++ "msg" ++ dq ++ ","
      ++ dq ++ "text" ++ dq ++ ":" ++ dq ++ t ++ dq ++ "}".

Definition hi_frame : string := msg_frame "hi".

(** A text of 2001 characters, and its frame. *)
Definition long_text : string := replicate 2001 "a".
Definition long_frame : string := msg_frame long_text.

(** The values of [json.loads] at the frames of the examples: the
    number [123], the frames [hi_frame] and [long_frame] and, raising,
    a bare text such as [hello].  It is used at those frames only. *)
Definition loads_sample (data : string) : option json :=
  if String.eqb data "123" then Some (JNum "123")
  else if String.eqb data hi_frame
  then Some (JObj [("type", JStr "msg"); ("text", JStr "hi")])
  else if String.eqb data long_frame
  then Some (JObj [("type", JStr "msg"); ("text", JStr long_text)])
  else None.

Definition anon : Info := make_info xa7 x0c 212.
Definition anon2 : Info := make_info x3b xe0 45.

(** The server at its start, with one client in ["general"], and with
    two. *)
Definition w_start : world := mkWorld [] [].
Definition w_general : world := mkWorld [("general", [(1, anon)])] [].
Definition w_pair : world :=
  mkWorld [("general", [(1, anon); (2, anon2)])] [].
Definition w_two_rooms : world :=
  mkWorld [("general", [(1, anon)]); ("other", [(2, anon2)])] [].


(** ** The client's escaping of a message text *)

(** [s.replace(/c/g, rep)] for a pattern of one character: every
    occurrence of [c], from left to right, gives way to [rep]. *)
Fixpoint replace_char (c : ascii) (rep : string) (s : string) : string :=
  match s with
  | EmptyString => EmptyString
  | String d r =>
      if Ascii.eqb d c then rep ++ replace_char c rep r
      else String d (replace_char c rep r)
  end.

(** [esc] of the page's script, on a string: the ampersands first,
    then the two angle brackets.  The coercion [String(s)] that comes
    first is the identity on a string; what it does to another value
    (a list is joined with commas) is not modelled. *)
Definition esc (s : string) : string :=
  replace_char ">" "&gt;"
    (replace_char "<" "&lt;" (replace_char "&" "&amp;" s)).

(** The entity of one character, for the statements on [esc]. *)
Definition esc_char (c : ascii) : string :=
  if Ascii.eqb c "&" then "&amp;"
  else if Ascii.eqb c "<" then "&lt;"
  else if Ascii.eqb c ">" then "&gt;"
  else String c EmptyString.

(** ** Vocabulary for the traces of a handler *)

(** The text of a msg envelope is a string or a list of at most 2000
    items; any other envelope passes. *)
Definition short_text (e : envelope) : Prop :=
  match e with
  | Msg (JStr s) _ _ => String.length s <= 2000
  | Msg (JArr l) _ _ => length l <= 2000
  | Msg _ _ _ => False
  | _ => True
  end.

Definition is_meta (e : envelope) : bool :=
  match e with Meta _ => true | _ => false end.

(** Every member of [room] in [r'] is one in [r], with the same
    identity: nobody has come, nobody has changed. *)
Definition members_within (room : string) (r r' : registry) : Prop :=
  forall c i,
    Dict.get c (members_of room r') = Some i ->
    Dict.get c (members_of room r) = Some i.

(** From [w] to [w'] the server has only sent envelopes that are not
    meta envelopes and carry a short text, to members of [room] in [w];
    the room has got no new member and the other rooms are as they
    were. *)
Definition quiet_step (room : string) (w w' : world) : Prop :=
  (exists new,
      log w' = log w ++ new
      /\ Forall (fun a => In (to a) (Dict.keys (members_of room (rooms w)))
                          /\ short_text (env a)
                          /\ is_meta (env a) = false) new)
  /\ members_within room (rooms w) (rooms w')
  /\ Dict.del room (rooms w') = Dict.del room (rooms w).

(** The text character by character, each as its entity. *)
Fixpoint escape_each (s : string) : string :=
  match s with
  | EmptyString => EmptyString
  | String c r => esc_char c ++ escape_each r
  end.



(** *** More sample environments *)

(** The frames [{"type":"ping"}] and [{"type":"msg"}]. *)
Definition ping_frame : string :=
  "{" ++ dq ++ "type" ++ dq ++ ":" ++ dq ++ "ping" ++ dq ++ "}".
Definition no_text_frame : string :=
  "{" ++ dq ++ "type" ++ dq ++ ":" ++ dq ++ "msg" ++ dq ++ "}".

(** [loads_sample], and the values of [json.loads] at those two
    frames. *)
Definition loads_more (data : string) : option json :=
  if String.eqb data ping_frame then Some (JObj [("type", JStr "ping")])
  else if String.eqb data no_text_frame then Some (JObj [("type", JStr "msg")])
  else loads_sample data.

(** Client 1 has been pruned from ["general"]; client 2 is there. *)
Definition w_pruned : world := mkWorld [("general", [(2, anon2)])] [].

(** * Properties *)

(** ** Dictionaries *)

Module DictFacts.
Import Dict.
Section Facts.
Context {K V : Type} `{EqKey K}.
Implicit Types (k : K) (v : V) (d : Dict.t K V).

Lemma keqb_refl k : keqb k k = true.
Proof. destruct (keqb_spec k k); congruence. Qed.

Lemma keqb_neq k k' : k <> k' -> keqb k k' = false.
Proof. intros Hn. destruct (keqb_spec k k'); congruence. Qed.

Lemma keqb_eq k k' : keqb k k' = true -> k = k'.
Proof. destruct (keqb_spec k k'); congruence. Qed.

Lemma get_set_same k v d : get k (set k v d) = Some v.
Proof.
  induction d as [|[k' v'] r IH]; simpl.
  - now rewrite keqb_refl.
  - destruct (keqb k' k) eqn:E; simpl; rewrite E; auto.
Qed.


Lemma get_del_same k d : get k (del k d) = None.
Proof.
  induction d as [|[k' v'] r IH]; simpl; auto.
  destruct (keqb k' k) eqn:E; simpl; auto. now rewrite E.
Qed.

Lemma get_del_other k k' d : k <> k' -> get k' (del k d) = get k' d.
Proof.
  intros Hn. induction d as [|[k1 v1] r IH]; simpl; auto.
  destruct (keqb k1 k) eqn:E; simpl.
  - apply keqb_eq in E. subst k1. now rewrite keqb_neq.
  - destruct (keqb k1 k'); auto.
Qed.

Lemma get_In k v d : get k d = Some v -> In (k, v) d.
Proof.
  induction d as [|[k' v'] r IH]; simpl; [discriminate|].
  destruct (keqb k' k) eqn:E.
  - intros [= ->]. apply keqb_eq in E. subst. now left.
  - auto.
Qed.

Lemma In_keys k v d : In (k, v) d -> In k (keys d).
Proof. intros Hin. apply (in_map fst) in Hin. exact Hin. Qed.

Lemma In_get k v d : wf d -> In (k, v) d -> get k d = Some v.
Proof.
  unfold wf. induction d as [|[k' v'] r IH]; simpl; [tauto|].
  intros Hnd [Heq|Hin]; inversion Hnd as [|? ? Hnotin Hnd']; subst.
  - inversion Heq; subst. now rewrite keqb_refl.
  - destruct (keqb k' k) eqn:E; auto.
    apply keqb_eq in E. subst k'. exfalso. apply Hnotin.
    now apply In_keys with v.
Qed.

Lemma contains_keys k d : contains k d = true <-> In k (keys d).
Proof.
  unfold contains. induction d as [|[k' v'] r IH]; simpl.
  - split; [discriminate|tauto].
  - destruct (keqb k' k) eqn:E.
    + apply keqb_eq in E. subst. tauto.
    + rewrite IH. split; auto. intros [Heq|Hin]; auto.
      subst. rewrite keqb_refl in E. discriminate.
Qed.

Lemma get_None_keys k d : get k d = None <-> ~ In k (keys d).
Proof.
  rewrite <- contains_keys. unfold contains.
  destruct (get k d); split; intros; congruence.
Qed.

Lemma keys_del k d : keys (del k d) = filter (fun k' => negb (keqb k' k)) (keys d).
Proof.
  unfold keys, del. induction d as [|[k' v'] r IH]; simpl; auto.
  destruct (keqb k' k); simpl; congruence.
Qed.



Lemma set_new k v d : get k d = None -> set k v d = d ++ [(k, v)].
Proof.
  induction d as [|[k' v'] r IH]; simpl; auto.
  destruct (keqb k' k); [discriminate|]. intros Hg. f_equal; auto.
Qed.

Lemma del_absent k d : get k d = None -> del k d = d.
Proof.
  induction d as [|[k' v'] r IH]; simpl; auto.
  destruct (keqb k' k); [discriminate|]. simpl. intros Hg. f_equal; auto.
Qed.



Lemma wf_del k d : wf d -> wf (del k d).
Proof. unfold wf. rewrite keys_del. apply NoDup_filter. Qed.

End Facts.
End DictFacts.

(** ** The registry *)

Import DictFacts.

Lemma del_set_same {K V : Type} `{EqKey K} (k : K) (v : V) (d : Dict.t K V) :
  Dict.del k (Dict.set k v d) = Dict.del k d.
Proof.
  induction d as [|[k' v'] r IH]; simpl.
  - now rewrite keqb_refl.
  - destruct (keqb k' k) eqn:E; simpl; rewrite E; simpl; congruence.
Qed.

Lemma del_del_same {K V : Type} `{EqKey K} (k : K) (d : Dict.t K V) :
  Dict.del k (Dict.del k d) = Dict.del k d.
Proof.
  unfold Dict.del. induction d as [|[k' v'] r IH]; simpl; auto.
  destruct (keqb k' k) eqn:E; simpl; auto. rewrite E. simpl. congruence.
Qed.

Lemma get_via_del {K V : Type} `{EqKey K} (k k' : K) (d d' : Dict.t K V) :
  k <> k' -> Dict.del k d' = Dict.del k d -> Dict.get k' d' = Dict.get k' d.
Proof.
  intros Hn Hd.
  rewrite <- (get_del_other d' Hn), <- (get_del_other d Hn). congruence.
Qed.

Lemma getitem_fst room r : fst (getitem room r) = members_of room r.
Proof. unfold getitem, members_of. now destruct (Dict.get room r). Qed.

Lemma getitem_get room r :
  Dict.get room (snd (getitem room r)) = Some (members_of room r).
Proof.
  unfold getitem, members_of. destruct (Dict.get room r) eqn:E; simpl; auto.
  apply get_set_same.
Qed.

Lemma getitem_del room r :
  Dict.del room (snd (getitem room r)) = Dict.del room r.
Proof.
  unfold getitem. destruct (Dict.get room r); simpl; auto.
  apply del_set_same.
Qed.

Lemma getitem_present room r m :
  Dict.get room r = Some m -> getitem room r = (m, r).
Proof. unfold getitem. now intros ->. Qed.

Lemma getitem_eq room r :
  getitem room r = (members_of room r, snd (getitem room r)).
Proof. rewrite <- getitem_fst. now destruct (getitem room r). Qed.

Lemma members_of_set room m r : members_of room (Dict.set room m r) = m.
Proof. unfold members_of. now rewrite get_set_same. Qed.

Lemma members_of_get room r m :
  Dict.get room r = Some m -> members_of room r = m.
Proof. unfold members_of. now intros ->. Qed.







Lemma drop_all_filter l m :
  drop_all l m = filter (fun kv => negb (existsb (Nat.eqb (fst kv)) l)) m.
Proof.
  unfold drop_all. revert m. induction l as [|ws l IH]; intros m; simpl.
  - induction m as [|kv m IHm]; simpl; [reflexivity|now f_equal].
  - rewrite IH. unfold Dict.del. simpl.
    induction m as [|kv m IHm]; simpl; auto.
    destruct (Nat.eqb (fst kv) ws); simpl; auto.
    destruct (existsb (Nat.eqb (fst kv)) l); simpl; auto.
    now f_equal.
Qed.

Lemma drop_all_wf l m : Dict.wf m -> Dict.wf (drop_all l m).
Proof.
  unfold drop_all. revert m. induction l as [|ws l IH]; intros m Hm; simpl; auto.
  apply IH. now apply wf_del.
Qed.

(** ** Broadcast *)

Section Broadcast.
Variable send_ok : nat -> conn -> bool.

Lemma world_eta w : mkWorld (rooms w) (log w) = w.
Proof. now destruct w. Qed.

Lemma send_each_spec conns m acc w :
  send_each send_ok conns m acc w
  = (acc ++ failed send_ok (length (log w)) conns,
     mkWorld (rooms w) (log w ++ attempts send_ok (length (log w)) conns m)).
Proof.
  revert acc w. induction conns as [|ws rest IH]; intros acc w; simpl.
  - now rewrite !app_nil_r, world_eta.
  - rewrite IH. simpl. rewrite length_app, Nat.add_1_r. simpl.
    rewrite <- !app_assoc. simpl.
    destruct (send_ok (length (log w)) ws); simpl; auto.
    now rewrite <- app_assoc.
Qed.

Lemma prune_get room r ws :
  Dict.get room (prune room r ws) = Some (Dict.del ws (members_of room r)).
Proof.
  unfold prune. rewrite getitem_eq.
  destruct (Dict.contains ws (members_of room r)) eqn:E.
  - apply get_set_same.
  - rewrite getitem_get. f_equal. symmetry. apply del_absent.
    unfold Dict.contains in E. now destruct (Dict.get ws (members_of room r)).
Qed.

Lemma prune_del room r ws : Dict.del room (prune room r ws) = Dict.del room r.
Proof.
  unfold prune. rewrite getitem_eq.
  destruct (Dict.contains ws (members_of room r)).
  - now rewrite del_set_same, getitem_del.
  - apply getitem_del.
Qed.


Lemma fold_prune_get room l r m :
  Dict.get room r = Some m ->
  Dict.get room (fold_left (prune room) l r) = Some (drop_all l m).
Proof.
  revert r m. induction l as [|ws l IH]; intros r m Hg; simpl; auto.
  apply IH. rewrite prune_get. now rewrite (members_of_get _ _ Hg).
Qed.

Lemma fold_prune_del room l r :
  Dict.del room (fold_left (prune room) l r) = Dict.del room r.
Proof.
  revert r. induction l as [|ws l IH]; intros r; simpl; auto.
  now rewrite IH, prune_del.
Qed.


(** The sends of a broadcast: one attempt per member of the snapshot,
    in the order of the snapshot, whatever their outcomes. *)
Lemma broadcast_log room m w :
  log (broadcast send_ok room m w)
  = log w ++ attempts send_ok (length (log w))
               (Dict.keys (members_of room (rooms w))) m.
Proof.
  unfold broadcast. rewrite getitem_eq, send_each_spec. simpl.
  now destruct (failed _ _ _).
Qed.

(** The room of a broadcast afterwards: bound, to the members whose
    send did not raise. *)
Lemma broadcast_members room m w :
  Dict.get room (rooms (broadcast send_ok room m w))
  = Some (drop_all (failed send_ok (length (log w))
                      (Dict.keys (members_of room (rooms w))))
            (members_of room (rooms w))).
Proof.
  unfold broadcast. rewrite getitem_eq, send_each_spec. simpl.
  destruct (failed _ _ _) eqn:E; unfold set_rooms; cbn [rooms log].
  - apply getitem_get.
  - apply fold_prune_get, getitem_get.
Qed.

(** The other rooms are left as they were. *)
Lemma broadcast_frame room m w :
  Dict.del room (rooms (broadcast send_ok room m w)) = Dict.del room (rooms w).
Proof.
  unfold broadcast. rewrite getitem_eq, send_each_spec. simpl.
  destruct (failed _ _ _); unfold set_rooms; cbn [rooms log].
  - apply getitem_del.
  - now rewrite fold_prune_del, getitem_del.
Qed.


Lemma attempts_to t conns m : map to (attempts send_ok t conns m) = conns.
Proof.
  revert t. induction conns as [|ws rest IH]; intros t; simpl; congruence.
Qed.

Lemma attempts_env t conns m :
  Forall (fun a => env a = m) (attempts send_ok t conns m).
Proof.
  revert t. induction conns as [|ws rest IH]; intros t; simpl; auto.
Qed.

Lemma attempts_failed t conns m a :
  In a (attempts send_ok t conns m) -> ok a = false ->
  In (to a) (failed send_ok t conns).
Proof.
  revert t. induction conns as [|ws rest IH]; intros t; simpl; [tauto|].
  intros [<-|Hin] Hok; simpl in *.
  - rewrite Hok. now left.
  - destruct (send_ok t ws); [|right]; now apply IH.
Qed.

Lemma failed_incl t conns ws : In ws (failed send_ok t conns) -> In ws conns.
Proof.
  revert t. induction conns as [|c rest IH]; intros t; simpl; auto.
  destruct (send_ok t c); simpl; [right; eauto|].
  intros [->|Hin]; [now left|right; eauto].
Qed.

End Broadcast.

Lemma drop_all_get l m ws :
  Dict.get ws (drop_all l m)
  = if existsb (Nat.eqb ws) l then None else Dict.get ws m.
Proof.
  unfold drop_all. revert m. induction l as [|a l IH]; intros m; simpl; auto.
  rewrite IH. destruct (Nat.eqb_spec ws a) as [->|Hn]; simpl.
  - rewrite get_del_same. now destruct (existsb _ l).
  - rewrite get_del_other by congruence. reflexivity.
Qed.

Lemma existsb_eqb_In ws l : existsb (Nat.eqb ws) l = true <-> In ws l.
Proof.
  rewrite existsb_exists. split.
  - intros [x [Hin Heq]]. apply Nat.eqb_eq in Heq. now subst.
  - intros Hin. exists ws. split; auto. apply Nat.eqb_refl.
Qed.

Lemma drop_all_contains l m ws :
  In ws l -> Dict.contains ws (drop_all l m) = false.
Proof.
  intros Hin. unfold Dict.contains. rewrite drop_all_get.
  apply existsb_eqb_In in Hin. now rewrite Hin.
Qed.

Lemma drop_all_keeps l m ws :
  ~ In ws l -> Dict.get ws (drop_all l m) = Dict.get ws m.
Proof.
  intros Hn. rewrite drop_all_get.
  destruct (existsb (Nat.eqb ws) l) eqn:E; auto.
  apply existsb_eqb_In in E. tauto.
Qed.

Section BroadcastClaims.
Variable send_ok : nat -> conn -> bool.

Lemma broadcast_members_of room m w :
  members_of room (rooms (broadcast send_ok room m w))
  = drop_all (failed send_ok (length (log w))
                (Dict.keys (members_of room (rooms w))))
      (members_of room (rooms w)).
Proof. apply members_of_get, broadcast_members. Qed.

(** C5.  A broadcast attempts one send per member of its snapshot, in
    the order of the snapshot and whatever the outcome of the earlier
    sends; it sends nothing but its own envelope (so no leave notice
    for a connection whose send raised); every connection whose send
    raised is gone from the room afterwards, and every other member is
    still there with its identity. *)
Theorem broadcast_tolerates_failed_sends room m w :
  let snapshot := Dict.keys (members_of room (rooms w)) in
  let w' := broadcast send_ok room m w in
  exists new,
    log w' = log w ++ new
    /\ map to new = snapshot
    /\ Forall (fun a => env a = m) new
    /\ (forall a, In a new -> ok a = false ->
          Dict.contains (to a) (members_of room (rooms w')) = false)
    /\ (forall ws, (forall a, In a new -> to a = ws -> ok a = true) ->
          Dict.get ws (members_of room (rooms w'))
          = Dict.get ws (members_of room (rooms w))).
Proof.
  intros snapshot w'.
  exists (attempts send_ok (length (log w)) snapshot m).
  split; [apply broadcast_log|].
  split; [apply attempts_to|].
  split; [apply attempts_env|].
  subst w'. rewrite broadcast_members_of. fold snapshot. split.
  - intros a Hin Hok. apply drop_all_contains.
    now apply attempts_failed with m.
  - intros ws Hall. apply drop_all_keeps. intros Hf.
    assert (Hex : exists a, In a (attempts send_ok (length (log w)) snapshot m)
                            /\ to a = ws /\ ok a = false).
    { clear Hall. revert Hf. generalize (length (log w)).
      induction snapshot as [|c rest IH]; intros t; simpl; [tauto|].
      destruct (send_ok t c) eqn:E.
      - intros Hf. destruct (IH _ Hf) as [a [Hin Ha]]. exists a. auto.
      - intros [->|Hf].
        + eexists. split; [left; reflexivity|]. simpl. auto.
        + destruct (IH _ Hf) as [a [Hin Ha]]. exists a. auto. }
    destruct Hex as [a [Hin [Hto Hok]]].
    rewrite (Hall a Hin Hto) in Hok. discriminate.
Qed.

End BroadcastClaims.

(** ** Strings *)

Lemma str_take_all n s : String.length s <= n -> str_take n s = s.
Proof.
  revert n. induction s as [|c s IH]; intros [|n]; simpl; auto; try lia.
  intros Hle. f_equal. apply IH. lia.
Qed.

Lemma str_take_length n s :
  n <= String.length s -> String.length (str_take n s) = n.
Proof.
  revert n. induction s as [|c s IH]; intros [|n]; simpl; auto; try lia.
  intros Hle. f_equal. apply IH. lia.
Qed.

Lemma str_take_prefix n s : exists rest, s = (str_take n s ++ rest)%string.
Proof.
  revert n. induction s as [|c s IH]; intros [|n]; simpl.
  - now exists "".
  - now exists "".
  - now exists (String c s).
  - destruct (IH n) as [rest Hr]. exists rest. now f_equal.
Qed.

Lemma str_take_substring n s : str_take n s = substring 0 n s.
Proof.
  revert n. induction s as [|c s IH]; intros [|n]; simpl; auto.
  now f_equal.
Qed.

(** ** The relay loop *)

Section Relay.
Variable send_ok : nat -> conn -> bool.
Variable json_loads : string -> option json.

Lemma members_of_getitem room r :
  members_of room (snd (getitem room r)) = members_of room r.
Proof. apply members_of_get, getitem_get. Qed.

(** A msg envelope whose text can be sliced is relayed: the loop goes
    on, and the room is sent the slice, signed by the sender. *)
Lemma on_text_msg room ws info data w o v text :
  json_loads data = Some (JObj o) ->
  is_msg (Dict.get "type" o) = true ->
  Dict.get "text" o = Some v ->
  slice2000 v = Some text ->
  let sender := sender_of room ws info (rooms w) in
  on_text send_ok json_loads room ws info data w
  = Some (broadcast send_ok room (Msg text (nick sender) (color sender))
            (set_rooms (snd (getitem room (rooms w))) w)).
Proof.
  intros Hl Ht Hv Hs sender. unfold on_text.
  rewrite Hl, Ht, Hv, Hs, getitem_eq. reflexivity.
Qed.

(** A frame [json.loads] rejects is relayed as a chat message whose
    text is the frame itself, cut at 2000 characters; the loop goes on. *)
Lemma on_text_unparseable room ws info data w :
  json_loads data = None ->
  let sender := sender_of room ws info (rooms w) in
  relay_step send_ok json_loads room ws info (Text data) w
  = (broadcast send_ok room
       (Msg (JStr (str_take 2000 data)) (nick sender) (color sender))
       (set_rooms (snd (getitem room (rooms w))) w), true).
Proof.
  intros Hl sender. unfold relay_step, on_text.
  rewrite Hl. simpl. rewrite getitem_eq. reflexivity.
Qed.

Lemma relayed_log room e w :
  log (broadcast send_ok room e (set_rooms (snd (getitem room (rooms w))) w))
  = log w ++ attempts send_ok (length (log w))
               (Dict.keys (members_of room (rooms w))) e.
Proof.
  rewrite broadcast_log. unfold set_rooms. cbn [rooms log].
  now rewrite members_of_getitem.
Qed.

Lemma attempts_In t conns m c :
  In c conns -> exists b, In (mkAttempt c m b) (attempts send_ok t conns m).
Proof.
  revert t. induction conns as [|ws rest IH]; intros t; simpl; [tauto|].
  intros [->|Hin].
  - eexists. left. reflexivity.
  - destruct (IH (S t) Hin) as [b Hb]. exists b. now right.
Qed.

Lemma received_In ws e l : In (mkAttempt ws e true) l -> In e (received ws l).
Proof.
  intros Hin. unfold received.
  apply (in_map env) with (x := mkAttempt ws e true).
  apply filter_In. split; auto. simpl. now rewrite Nat.eqb_refl.
Qed.

(** C3.  On a msg envelope whose text is the string [t], the relay
    loop goes on and sends every member of the room one msg envelope
    whose text is [t] cut after 2000 characters: exactly the first 2000
    characters when [t] is longer, [t] itself otherwise. *)
Theorem msg_text_truncated room ws info data w o t :
  json_loads data = Some (JObj o) ->
  is_msg (Dict.get "type" o) = true ->
  Dict.get "text" o = Some (JStr t) ->
  exists w' new delivered n c,
    relay_step send_ok json_loads room ws info (Text data) w = (w', true)
    /\ log w' = log w ++ new
    /\ map to new = Dict.keys (members_of room (rooms w))
    /\ Forall (fun a => env a = Msg (JStr delivered) n c) new
    /\ delivered = substring 0 2000 t
    /\ (2000 < String.length t ->
          String.length delivered = 2000
          /\ exists rest, t = (delivered ++ rest)%string)
    /\ (String.length t <= 2000 -> delivered = t).
Proof.
  intros Hl Ht Hv.
  pose (sender := sender_of room ws info (rooms w)).
  exists (broadcast send_ok room
            (Msg (JStr (str_take 2000 t)) (nick sender) (color sender))
            (set_rooms (snd (getitem room (rooms w))) w)).
  exists (attempts send_ok (length (log w))
            (Dict.keys (members_of room (rooms w)))
            (Msg (JStr (str_take 2000 t)) (nick sender) (color sender))).
  exists (str_take 2000 t), (nick sender), (color sender).
  split.
  { unfold relay_step.
    now rewrite (on_text_msg room ws info w Hl Ht Hv eq_refl). }
  split; [apply relayed_log|].
  split; [apply attempts_to|].
  split; [apply attempts_env|].
  split; [apply str_take_substring|].
  split.
  - intros Hlen. split; [apply str_take_length; lia|apply str_take_prefix].
  - apply str_take_all.
Qed.


(** C10.  The fan-out of a chat message does not leave the sender out:
    on a msg envelope the loop goes on and a send of the resulting msg
    envelope, signed with the sender's registered identity, is
    attempted to every member of the room, the sender among them; when
    that send returns, the sender has received its own message. *)
Theorem sender_gets_own_message room ws info data w o v text sender :
  json_loads data = Some (JObj o) ->
  is_msg (Dict.get "type" o) = true ->
  Dict.get "text" o = Some v ->
  slice2000 v = Some text ->
  Dict.get ws (members_of room (rooms w)) = Some sender ->
  let e := Msg text (nick sender) (color sender) in
  exists w' new,
    relay_step send_ok json_loads room ws info (Text data) w = (w', true)
    /\ log w' = log w ++ new
    /\ (forall c, In c (Dict.keys (members_of room (rooms w))) ->
          exists b, In (mkAttempt c e b) new)
    /\ exists b, In (mkAttempt ws e b) new
                 /\ (b = true -> In e (received ws new)).
Proof.
  intros Hl Ht Hv Hs Hg e.
  assert (He : e = Msg text (nick (sender_of room ws info (rooms w)))
                     (color (sender_of room ws info (rooms w)))).
  { unfold sender_of. now rewrite Hg. }
  eexists. eexists. split.
  { unfold relay_step.
    rewrite (on_text_msg room ws info w Hl Ht Hv Hs). reflexivity. }
  split; [apply relayed_log|]. rewrite <- He. split.
  - intros c Hc. now apply attempts_In.
  - apply get_In, In_keys in Hg.
    destruct (attempts_In (length (log w)) _ e _ Hg) as [b Hb].
    exists b. split; auto. intros ->. now apply received_In.
Qed.

(** C2, where the code departs from it.  A frame that [json.loads]
    decodes to something other than an object (a number, a string, a
    list, [true], [null]) is not relayed as a chat message: the
    [payload.get] raises, the handler leaves its loop and runs the
    cleanup, so the client is disconnected. *)
Theorem non_object_payload_disconnects room ws info data w p :
  json_loads data = Some p ->
  (forall o, p <> JObj o) ->
  relay_step send_ok json_loads room ws info (Text data) w
  = (cleanup send_ok room ws w, false).
Proof.
  intros Hl Hp. unfold relay_step, on_text. rewrite Hl.
  destruct p; try reflexivity. now destruct (Hp o).
Qed.

(** So is a msg envelope whose text cannot be sliced (a number,
    [null], a boolean, an object). *)
Lemma unsliceable_text_disconnects room ws info data w o v :
  json_loads data = Some (JObj o) ->
  is_msg (Dict.get "type" o) = true ->
  Dict.get "text" o = Some v ->
  slice2000 v = None ->
  relay_step send_ok json_loads room ws info (Text data) w
  = (cleanup send_ok room ws w, false).
Proof.
  intros Hl Ht Hv Hs. unfold relay_step, on_text.
  now rewrite Hl, Ht, Hv, Hs.
Qed.

End Relay.

(** ** Listing *)

Lemma active_rooms_In R r :
  In R (active_rooms r) <-> exists m, In (R, m) r /\ 1 <= length m.
Proof.
  unfold active_rooms. rewrite in_map_iff. split.
  - intros [[R' m] [Heq Hin]]. simpl in Heq. subst R'.
    apply filter_In in Hin. destruct Hin as [Hin Hlen]. simpl in Hlen.
    exists m. split; auto. now apply Nat.ltb_lt in Hlen.
  - intros [m [Hin Hlen]]. exists (R, m). split; auto.
    apply filter_In. split; auto. simpl. now apply Nat.ltb_lt.
Qed.

Lemma active_rooms_get R r :
  Dict.wf r ->
  (In R (active_rooms r) <-> exists m, Dict.get R r = Some m /\ 1 <= length m).
Proof.
  intros Hwf. rewrite active_rooms_In. split; intros [m [Hm Hlen]]; exists m.
  - split; auto. now apply In_get.
  - split; auto. now apply get_In.
Qed.

Lemma active_rooms_NoDup r : Dict.wf r -> NoDup (active_rooms r).
Proof.
  unfold Dict.wf, Dict.keys, active_rooms.
  induction r as [|[R m] r IH]; simpl; [constructor|].
  intros Hnd. inversion Hnd as [|? ? Hnotin Hnd']; subst.
  destruct (Nat.ltb 0 (length m)); simpl; auto.
  constructor; auto. intros Hin. apply Hnotin.
  apply in_map_iff in Hin. destruct Hin as [x [Hx Hin]].
  apply filter_In in Hin. apply in_map_iff. exists x. tauto.
Qed.

Lemma In_del {K V : Type} `{EqKey K} (k : K) (v : V) (d : Dict.t K V) :
  ~ In (k, v) (Dict.del k d).
Proof.
  unfold Dict.del. intros Hin. apply filter_In in Hin. simpl in Hin.
  destruct Hin as [_ Hk]. now rewrite keqb_refl in Hk.
Qed.

(** ** Cleanup *)

Lemma deregister_del room ws r :
  Dict.del room (snd (deregister room ws r)) = Dict.del room r.
Proof.
  unfold deregister. rewrite getitem_eq.
  destruct (Dict.get ws (members_of room r)); rewrite getitem_eq;
    match goal with |- context [Nat.eqb ?n 0] => destruct (Nat.eqb n 0) end;
    simpl; rewrite ?del_del_same, ?getitem_del, ?del_set_same, ?getitem_del;
    reflexivity.
Qed.


(** The last member: the room is deleted. *)
Lemma deregister_sole room ws info r :
  Dict.get room r = Some [(ws, info)] ->
  deregister room ws r = (nick info, Dict.del room r).
Proof.
  intros Hg. unfold deregister. rewrite (getitem_present _ _ Hg).
  simpl. rewrite Nat.eqb_refl. simpl.
  rewrite getitem_eq, members_of_set. simpl.
  f_equal. rewrite getitem_del. apply del_set_same.
Qed.

Section Cleanup.
Variable send_ok : nat -> conn -> bool.

(** The guard [if room in rooms] of the [finally] block never fails:
    the broadcast before it has read [rooms[room]], which binds the
    room. *)
Lemma broadcast_binds_room room m w :
  Dict.contains room (rooms (broadcast send_ok room m w)) = true.
Proof. unfold Dict.contains. now rewrite broadcast_members. Qed.

Lemma cleanup_unguarded room ws w :
  cleanup send_ok room ws w
  = let (left, r) := deregister room ws (rooms w) in
    let w1 := broadcast send_ok room (leave_notice left) (set_rooms r w) in
    broadcast send_ok room (RoomsEnv (active_rooms (rooms w1))) w1.
Proof.
  unfold cleanup. destruct (deregister room ws (rooms w)) as [left r].
  now rewrite broadcast_binds_room.
Qed.

Lemma cleanup_frame room ws w :
  Dict.del room (rooms (cleanup send_ok room ws w)) = Dict.del room (rooms w).
Proof.
  rewrite cleanup_unguarded.
  pose proof (deregister_del room ws (rooms w)) as Hd.
  destruct (deregister room ws (rooms w)) as [left r]. simpl in *.
  now rewrite !broadcast_frame.
Qed.


(** After the last member has left, the room is bound again, to an
    empty mapping, behind the other rooms. *)
Lemma cleanup_sole room ws info w :
  Dict.get room (rooms w) = Some [(ws, info)] ->
  rooms (cleanup send_ok room ws w) = Dict.del room (rooms w) ++ [(room, [])].
Proof.
  intros Hg. rewrite cleanup_unguarded, (deregister_sole _ _ Hg).
  assert (Hb : forall m l,
             broadcast send_ok room m (mkWorld (Dict.del room (rooms w)) l)
             = mkWorld (Dict.del room (rooms w) ++ [(room, [])]) l).
  { intros m l. unfold broadcast, getitem. simpl.
    rewrite get_del_same. simpl. unfold set_rooms. simpl.
    now rewrite set_new by apply get_del_same. }
  unfold set_rooms. cbn zeta. rewrite Hb.
  unfold broadcast, getitem. cbn [rooms log].
  assert (Hg' : Dict.get room (Dict.del room (rooms w) ++ [(room, [])])
                = Some (@nil (nat * Info))).
  { rewrite <- set_new by apply get_del_same. apply get_set_same. }
  rewrite Hg'. reflexivity.
Qed.

Lemma cleanup_sole_unlisted room ws info w :
  Dict.get room (rooms w) = Some [(ws, info)] ->
  ~ In room (list_rooms (cleanup send_ok room ws w)).
Proof.
  intros Hg. unfold list_rooms. erewrite cleanup_sole by eassumption.
  rewrite active_rooms_In. intros [m [Hin Hlen]].
  apply in_app_or in Hin. destruct Hin as [Hin|[Heq|[]]].
  - now apply In_del in Hin.
  - inversion Heq; subst. simpl in Hlen. lia.
Qed.

End Cleanup.

Section CleanupClaims.
Variable send_ok : nat -> conn -> bool.
Variable json_loads : string -> option json.

(** C8, where the code departs from it.  The sole member of
    ["general"] disconnects.  The locked block deletes the emptied
    room; the broadcast of the leave notice, reading [rooms[room]] on
    the [defaultdict], binds it again to an empty mapping; the guard
    [if room in rooms] therefore passes, the rooms envelope is
    broadcast (to nobody), and the registry is left with the empty
    room. *)
Theorem sole_member_cleanup_resurrects_room :
  let left_r := deregister "general" 1 (rooms w_general) in
  let w1 := broadcast send_ok "general" (leave_notice (fst left_r))
              (set_rooms (snd left_r) w_general) in
  left_r = ("Anon-a70c", [])
  /\ rooms w1 = [("general", [])]
  /\ Dict.contains "general" (rooms w1) = true
  /\ relay_step send_ok json_loads "general" 1 anon Disconnect w_general
     = (broadcast send_ok "general" (RoomsEnv []) w1, false)
  /\ rooms (cleanup send_ok "general" 1 w_general) = [("general", [])]
  /\ member_count "general" (rooms (cleanup send_ok "general" 1 w_general)) = 0.
Proof. repeat split. Qed.

(** C9.  When the sole member of a room disconnects, the cleanup
    leaves every other room bound to the member mapping it had (the
    entries of the other rooms are the same, in the same order), and
    the room is not in the listing any more. *)
Theorem sole_member_disconnect_frame room ws info info0 w :
  Dict.get room (rooms w) = Some [(ws, info)] ->
  let w' := fst (relay_step send_ok json_loads room ws info0 Disconnect w) in
  (forall R, R <> room -> Dict.get R (rooms w') = Dict.get R (rooms w))
  /\ Dict.del room (rooms w') = Dict.del room (rooms w)
  /\ ~ In room (list_rooms w').
Proof.
  intros Hg w'. subst w'. simpl. split; [|split].
  - intros R Hn. apply get_via_del with room; [congruence|].
    apply cleanup_frame.
  - apply cleanup_frame.
  - now apply cleanup_sole_unlisted with info.
Qed.

(** C4.  The listing is exactly the rooms with at least one member,
    and a room is out of it as soon as its last member has left. *)
Theorem list_rooms_exact R w :
  Dict.wf (rooms w) ->
  (In R (list_rooms w) <-> 1 <= member_count R (rooms w))
  /\ NoDup (list_rooms w)
  /\ (forall ws info info0,
        Dict.get R (rooms w) = Some [(ws, info)] ->
        ~ In R (list_rooms
                  (fst (relay_step send_ok json_loads R ws info0 Disconnect w)))).
Proof.
  intros Hwf. split; [|split].
  - unfold list_rooms, member_count, members_of.
    rewrite (active_rooms_get R Hwf). split.
    + intros [m [-> Hlen]]. exact Hlen.
    + destruct (Dict.get R (rooms w)) as [m|]; simpl; [|lia].
      intros Hlen. now exists m.
  - now apply active_rooms_NoDup.
  - intros ws info info0 Hg. simpl.
    now apply cleanup_sole_unlisted with info.
Qed.

End CleanupClaims.

(** ** Identities *)

Lemma unhex_hex_byte b :
  unhex_byte (hex_digit (N.div (Byte.to_N b) 16))
             (hex_digit (N.modulo (Byte.to_N b) 16)) = Some b.
Proof. destruct b; reflexivity. Qed.

Lemma hex_byte_is_hex b :
  forallb is_hex_digit (list_ascii_of_string (hex_byte b)) = true.
Proof. destruct b; reflexivity. Qed.

Lemma hex_byte_inj b c : hex_byte b = hex_byte c -> b = c.
Proof.
  unfold hex_byte. intros Heq. injection Heq as Hh Hl.
  pose proof (unhex_hex_byte b) as Hb. rewrite Hh, Hl in Hb.
  rewrite unhex_hex_byte in Hb. now injection Hb.
Qed.

Lemma make_nick_inj b1 b2 c1 c2 :
  make_nick b1 b2 = make_nick c1 c2 -> b1 = c1 /\ b2 = c2.
Proof.
  unfold make_nick. cbn [token_hex]. unfold hex_byte. simpl.
  intros Heq. injection Heq as H1 H2 H3 H4. split; apply hex_byte_inj.
  - unfold hex_byte. now rewrite H1, H2.
  - unfold hex_byte. now rewrite H3, H4.
Qed.

Lemma register_members room ws info r :
  members_of room (register room ws info r)
  = Dict.set ws info (members_of room r).
Proof. unfold register. rewrite getitem_eq. apply members_of_set. Qed.

(** C7, as the code has it.  The nickname is [Anon-] and the four
    hexadecimal digits of the two bytes drawn; the join registers it
    as it is, with no look at the nicknames in use.  So two identities
    carry the same nickname exactly when the same two bytes were drawn
    for both. *)
Theorem nickname_collision_iff_same_draw b1 b2 h c1 c2 h' :
  (nick (make_info b1 b2 h) = nick (make_info c1 c2 h')
   <-> b1 = c1 /\ b2 = c2)
  /\ forall room ws r,
       Dict.get ws (members_of room (register room ws (make_info b1 b2 h) r))
       = Some (make_info b1 b2 h).
Proof.
  split.
  - simpl. split; [apply make_nick_inj|]. now intros [-> ->].
  - intros room ws r. rewrite register_members. apply get_set_same.
Qed.

(** ** Join *)


Section Join.
Variable send_ok : nat -> conn -> bool.
Variable json_loads : string -> option json.




End Join.

Section FirstJoin.
Variable send_ok : nat -> conn -> bool.
Variable json_loads : string -> option json.

Lemma join_first room ws info w :
  members_of room (rooms w) = [] ->
  (forall t, send_ok t ws = true) ->
  exists w' l,
    join send_ok room ws info w = (w', true)
    /\ log w' = log w ++ [mkAttempt ws (Meta info) true;
                          mkAttempt ws (join_notice info) true;
                          mkAttempt ws (RoomsEnv l) true]
    /\ In room l
    /\ members_of room (rooms w') = [(ws, info)].
Proof.
  intros Hempty Hok. unfold join, send_text. cbn [log rooms set_rooms].
  rewrite Hok.
  set (r1 := register room ws info (rooms w)).
  set (w2 := mkWorld r1 (log w ++ [mkAttempt ws (Meta info) true])).
  assert (Hm2 : members_of room (rooms w2) = [(ws, info)]).
  { unfold w2, r1. cbn [rooms]. rewrite register_members, Hempty.
    reflexivity. }
  set (w3 := broadcast send_ok room (join_notice info) w2).
  assert (Hm3 : members_of room (rooms w3) = [(ws, info)]).
  { unfold w3. rewrite broadcast_members_of, Hm2. simpl.
    now rewrite Hok. }
  assert (Hl3 : log w3 = log w2 ++ [mkAttempt ws (join_notice info) true]).
  { unfold w3. rewrite broadcast_log, Hm2. simpl. now rewrite Hok. }
  set (l := active_rooms (rooms w3)).
  exists (broadcast send_ok room (RoomsEnv l) w3), l.
  split; [reflexivity|]. split; [|split].
  - rewrite broadcast_log, Hm3, Hl3. simpl. rewrite Hok.
    unfold w2. cbn [log]. now rewrite <- !app_assoc.
  - unfold l. apply active_rooms_In. exists [(ws, info)]. split; [|simpl; lia].
    apply get_In. unfold w3. rewrite broadcast_members, Hm2. simpl.
    now rewrite Hok.
  - rewrite broadcast_members_of, Hm3. simpl. now rewrite Hok.
Qed.

(** C6.  A client whose sends go through joins a room without
    members (the room of its query, or ["lobby"]).  The handler reaches
    its relay loop, and in between the client has received, in this
    order and nothing else: the meta envelope with its identity, a
    nickname [Anon-] and four hexadecimal digits and an [hsl] colour;
    the join notice with the text [<nick> joined.]; a rooms envelope
    that lists the room.  Nobody else is sent anything. *)
Theorem first_join_envelopes q ws b1 b2 hue w :
  let room := resolve_room q in
  let info := make_info b1 b2 hue in
  members_of room (rooms w) = [] ->
  (forall t, send_ok t ws = true) ->
  exists w' new room_list token,
    websocket_endpoint send_ok json_loads q ws b1 b2 hue [] w = (w', true)
    /\ log w' = log w ++ new
    /\ map to new = [ws; ws; ws]
    /\ received ws new
       = [Meta info;
          System (nick info ++ " joined.") "System" "#666" "join";
          RoomsEnv room_list]
    /\ In room room_list
    /\ nick info = ("Anon-" ++ token)%string
    /\ String.length token = 4
    /\ forallb is_hex_digit (list_ascii_of_string token) = true
    /\ color info = ("hsl(" ++ str_of_nat hue ++ " 70% 55%)")%string.
Proof.
  intros room info Hempty Hok.
  destruct (join_first room info w Hempty Hok) as [w' [l [Hj [Hlog [Hin _]]]]].
  exists w', [mkAttempt ws (Meta info) true;
              mkAttempt ws (join_notice info) true;
              mkAttempt ws (RoomsEnv l) true], l, (token_hex [b1; b2]).
  split.
  { unfold websocket_endpoint. fold room. fold info. now rewrite Hj. }
  split; [exact Hlog|]. split; [reflexivity|]. split.
  { unfold received. simpl. now rewrite Nat.eqb_refl. }
  split; [exact Hin|]. split; [reflexivity|]. split; [reflexivity|].
  split; [|reflexivity].
  cbn [token_hex]. unfold hex_byte. simpl.
  pose proof (hex_byte_is_hex b1) as H1. pose proof (hex_byte_is_hex b2) as H2.
  unfold hex_byte in H1, H2. simpl in H1, H2.
  apply andb_prop in H1. destruct H1 as [H1a H1b].
  apply andb_prop in H1b. destruct H1b as [H1b _].
  apply andb_prop in H2. destruct H2 as [H2a H2b].
  apply andb_prop in H2b. destruct H2b as [H2b _].
  now rewrite H1a, H1b, H2a, H2b.
Qed.

End FirstJoin.

(** ** The claims at concrete inputs *)

Example make_info_sample :
  make_info xa7 x0c 212
  = {| nick := "Anon-a70c"; color := "hsl(212 70% 55%)" |}.
Proof. reflexivity. Qed.

Example slice2000_long :
  slice2000 (JStr long_text) = Some (JStr (replicate 2000 "a")).
Proof. vm_compute. reflexivity. Qed.

(** A text of 2001 characters reaches the room without its last one. *)
Example long_text_is_cut :
  relay_step all_ok loads_sample "general" 1 anon (Text long_frame) w_general
  = (mkWorld [("general", [(1, anon)])]
       [mkAttempt 1
          (Msg (JStr (replicate 2000 "a")) "Anon-a70c" "hsl(212 70% 55%)")
          true],
     true).
Proof. vm_compute. reflexivity. Qed.

Example slice2000_short : slice2000 (JStr "hi") = Some (JStr "hi").
Proof. reflexivity. Qed.

(** A bare text is relayed to the room, the sender included. *)
Example bare_text_is_relayed :
  relay_step all_ok loads_sample "general" 1 anon (Text "hello") w_pair
  = (mkWorld [("general", [(1, anon); (2, anon2)])]
       [mkAttempt 1 (Msg (JStr "hello") "Anon-a70c" "hsl(212 70% 55%)") true;
        mkAttempt 2 (Msg (JStr "hello") "Anon-a70c" "hsl(212 70% 55%)") true],
     true).
Proof. reflexivity. Qed.

(** The frame [123] ends the handler of its sender: the other member
    is told that it left. *)
Example number_frame_disconnects :
  relay_step all_ok loads_sample "general" 1 anon (Text "123") w_pair
  = (mkWorld [("general", [(2, anon2)])]
       [mkAttempt 2 (System "Anon-a70c left." "System" "#666" "leave") true;
        mkAttempt 2 (RoomsEnv ["general"]) true],
     false).
Proof. reflexivity. Qed.

(** A broadcast goes on after a failed send, and prunes the failed
    connection only. *)
Example broadcast_prunes_dead_member :
  broadcast (dead [1]) "general" (RoomsEnv ["general"]) w_pair
  = mkWorld [("general", [(2, anon2)])]
      [mkAttempt 1 (RoomsEnv ["general"]) false;
       mkAttempt 2 (RoomsEnv ["general"]) true].
Proof. reflexivity. Qed.

(** A whole session: join the empty server, say hello, leave. *)
Example session_sample :
  websocket_endpoint all_ok loads_sample None 1 xa7 x0c 212
    [Text "hello"; Disconnect] w_start
  = (mkWorld [("lobby", [])]
       [mkAttempt 1 (Meta anon) true;
        mkAttempt 1 (System "Anon-a70c joined." "System" "#666" "join") true;
        mkAttempt 1 (RoomsEnv ["lobby"]) true;
        mkAttempt 1 (Msg (JStr "hello") "Anon-a70c" "hsl(212 70% 55%)") true],
     false).
Proof. reflexivity. Qed.


Lemma non_object_payload_disconnects_witness :
  loads_sample "123" = Some (JNum "123")
  /\ (forall o, JNum "123" <> JObj o)
  /\ relay_step all_ok loads_sample "general" 1 anon (Text "123") w_pair
     = (cleanup all_ok "general" 1 w_pair, false).
Proof.
  split; [reflexivity|]. split; [discriminate|].
  apply (@non_object_payload_disconnects all_ok loads_sample
           "general" 1 anon "123" w_pair (JNum "123")).
  - reflexivity.
  - discriminate.
Defined.

Lemma msg_text_truncated_witness :
  loads_sample long_frame
  = Some (JObj [("type", JStr "msg"); ("text", JStr long_text)])
  /\ exists w' new delivered n c,
       relay_step all_ok loads_sample "general" 1 anon (Text long_frame) w_pair
       = (w', true)
       /\ log w' = log w_pair ++ new
       /\ map to new = Dict.keys (members_of "general" (rooms w_pair))
       /\ Forall (fun a => env a = Msg (JStr delivered) n c) new
       /\ delivered = substring 0 2000 long_text
       /\ (2000 < String.length long_text ->
             String.length delivered = 2000
             /\ exists rest, long_text = (delivered ++ rest)%string)
       /\ (String.length long_text <= 2000 -> delivered = long_text).
Proof.
  assert (Hl : loads_sample long_frame
               = Some (JObj [("type", JStr "msg"); ("text", JStr long_text)])).
  { vm_compute. reflexivity. }
  split; [exact Hl|].
  apply (@msg_text_truncated all_ok loads_sample "general" 1 anon long_frame
           w_pair [("type", JStr "msg"); ("text", JStr long_text)] long_text Hl);
    reflexivity.
Defined.

Lemma list_rooms_exact_witness :
  Dict.wf (rooms w_two_rooms)
  /\ (In "general" (list_rooms w_two_rooms)
      <-> 1 <= member_count "general" (rooms w_two_rooms))
  /\ NoDup (list_rooms w_two_rooms)
  /\ (forall ws info info0,
        Dict.get "general" (rooms w_two_rooms) = Some [(ws, info)] ->
        ~ In "general"
            (list_rooms
               (fst (relay_step all_ok loads_sample "general" ws info0
                       Disconnect w_two_rooms)))).
Proof.
  assert (Hwf : Dict.wf (rooms w_two_rooms)).
  { repeat constructor; simpl; intuition discriminate. }
  split; [exact Hwf|].
  exact (list_rooms_exact all_ok loads_sample "general" w_two_rooms Hwf).
Defined.

Lemma first_join_envelopes_witness :
  members_of (resolve_room (Some "general")) (rooms w_start) = []
  /\ (forall t, all_ok t 1 = true)
  /\ exists w' new room_list token,
       websocket_endpoint all_ok loads_sample (Some "general") 1 xa7 x0c 212
         [] w_start = (w', true)
       /\ log w' = log w_start ++ new
       /\ map to new = [1; 1; 1]
       /\ received 1 new
          = [Meta anon;
             System "Anon-a70c joined." "System" "#666" "join";
             RoomsEnv room_list]
       /\ In "general" room_list
       /\ nick anon = ("Anon-" ++ token)%string
       /\ String.length token = 4
       /\ forallb is_hex_digit (list_ascii_of_string token) = true
       /\ color anon = "hsl(212 70% 55%)".
Proof.
  split; [reflexivity|]. split; [reflexivity|].
  apply (@first_join_envelopes all_ok loads_sample (Some "general") 1
           xa7 x0c 212 w_start); reflexivity.
Defined.

Lemma sole_member_disconnect_frame_witness :
  Dict.get "general" (rooms w_two_rooms) = Some [(1, anon)]
  /\ let w' := fst (relay_step all_ok loads_sample "general" 1 anon
                      Disconnect w_two_rooms) in
     (forall R, R <> "general" ->
        Dict.get R (rooms w') = Dict.get R (rooms w_two_rooms))
     /\ Dict.del "general" (rooms w') = Dict.del "general" (rooms w_two_rooms)
     /\ ~ In "general" (list_rooms w').
Proof.
  split; [reflexivity|].
  apply (@sole_member_disconnect_frame all_ok loads_sample "general" 1
           anon anon w_two_rooms). reflexivity.
Defined.

Lemma sender_gets_own_message_witness :
  let e := Msg (JStr "hi") (nick anon) (color anon) in
  Dict.get 1 (members_of "general" (rooms w_pair)) = Some anon
  /\ exists w' new,
       relay_step all_ok loads_sample "general" 1 anon (Text hi_frame) w_pair
       = (w', true)
       /\ log w' = log w_pair ++ new
       /\ (forall c, In c (Dict.keys (members_of "general" (rooms w_pair))) ->
             exists b, In (mkAttempt c e b) new)
       /\ exists b, In (mkAttempt 1 e b) new
                    /\ (b = true -> In e (received 1 new)).
Proof.
  split; [reflexivity|].
  apply (@sender_gets_own_message all_ok loads_sample "general" 1 anon
           hi_frame w_pair [("type", JStr "msg"); ("text", JStr "hi")]
           (JStr "hi") (JStr "hi") anon); reflexivity.
Defined.

(** C7 as stated fails: two clients for which the generator draws the
    same two bytes are both live in ["general"] under one nickname. *)
Lemma same_draw_same_nickname :
  let w1 := fst (websocket_endpoint all_ok loads_sample (Some "general") 1
                   xa7 x0c 212 [] w_start) in
  let w2 := fst (websocket_endpoint all_ok loads_sample (Some "general") 2
                   xa7 x0c 45 [] w1) in
  exists i1 i2,
    Dict.get 1 (members_of "general" (rooms w2)) = Some i1
    /\ Dict.get 2 (members_of "general" (rooms w2)) = Some i2
    /\ nick i1 = nick i2.
Proof.
  exists (make_info xa7 x0c 212), (make_info xa7 x0c 45). repeat split.
Qed.

(** * Further properties of the code *)

(** ** Broadcast at its edges *)

Section BroadcastEdges.
Variable send_ok : nat -> conn -> bool.

Lemma attempts_all_ok t conns m :
  (forall t' c, In c conns -> send_ok t' c = true) ->
  attempts send_ok t conns m = map (fun c => mkAttempt c m true) conns
  /\ failed send_ok t conns = [].
Proof.
  revert t. induction conns as [|c rest IH]; intros t Hok; simpl; auto.
  rewrite (Hok t c) by now left.
  destruct (IH (S t)) as [Ha Hf]; [intros; apply Hok; now right|].
  now rewrite Ha, Hf.
Qed.

Lemma broadcast_rooms_no_failure room m w :
  failed send_ok (length (log w)) (Dict.keys (members_of room (rooms w))) = [] ->
  rooms (broadcast send_ok room m w) = snd (getitem room (rooms w)).
Proof.
  intros Hf. unfold broadcast. rewrite getitem_eq, send_each_spec. simpl.
  now rewrite Hf.
Qed.

(** X1.  A broadcast to a room the registry does not know raises nothing
    and sends nothing: reading [rooms[room]] binds the room, last in
    the registry, to an empty mapping. *)
Theorem broadcast_unknown_room room m w :
  Dict.get room (rooms w) = None ->
  broadcast send_ok room m w = mkWorld (rooms w ++ [(room, [])]) (log w).
Proof.
  intros Hg. unfold broadcast, getitem. rewrite Hg. simpl.
  unfold set_rooms. simpl. now rewrite set_new by exact Hg.
Qed.

Lemma broadcast_all_ok room m w mem :
  Dict.get room (rooms w) = Some mem ->
  (forall t c, In c (Dict.keys mem) -> send_ok t c = true) ->
  broadcast send_ok room m w
  = mkWorld (rooms w)
      (log w ++ map (fun c => mkAttempt c m true) (Dict.keys mem)).
Proof.
  intros Hg Hok.
  destruct (attempts_all_ok (length (log w)) (Dict.keys mem) m Hok) as [Ha Hf].
  pose proof (broadcast_log send_ok room m w) as Hl.
  pose proof (@broadcast_rooms_no_failure room m w) as Hr.
  rewrite (members_of_get _ _ Hg) in Hl, Hr.
  rewrite Ha in Hl. rewrite (getitem_present _ _ Hg) in Hr. simpl in Hr.
  specialize (Hr Hf).
  destruct (broadcast send_ok room m w) as [r l]. simpl in *. congruence.
Qed.

(** X2.  When the send to every member of the room returns, the broadcast
    leaves the registry as it is and each member, in the order of the
    room, is delivered the envelope once. *)
Theorem broadcast_all_delivered room m w mem :
  Dict.get room (rooms w) = Some mem ->
  (forall t c, In c (Dict.keys mem) -> send_ok t c = true) ->
  broadcast send_ok room m w
  = mkWorld (rooms w)
      (log w ++ map (fun c => mkAttempt c m true) (Dict.keys mem)).
Proof. apply broadcast_all_ok. Qed.

End BroadcastEdges.

(** ** Leaving *)

Lemma deregister_left room ws r :
  fst (deregister room ws r)
  = match Dict.get ws (members_of room r) with
    | Some i => nick i
    | None => "Someone"
    end.
Proof.
  unfold deregister. rewrite getitem_eq.
  destruct (Dict.get ws (members_of room r)); now rewrite getitem_eq.
Qed.

Lemma length_zero_nil {A : Type} (l : list A) :
  Nat.eqb (length l) 0 = true -> l = [].
Proof. destruct l; simpl; [reflexivity|discriminate]. Qed.

Lemma members_of_del_same room r : members_of room (Dict.del room r) = [].
Proof. unfold members_of. now rewrite get_del_same. Qed.

Lemma deregister_members room ws r :
  members_of room (snd (deregister room ws r))
  = Dict.del ws (members_of room r).
Proof.
  unfold deregister. rewrite getitem_eq.
  destruct (Dict.get ws (members_of room r)) eqn:Eg; rewrite getitem_eq;
    match goal with |- context [Nat.eqb ?n 0] => destruct (Nat.eqb n 0) eqn:E end;
    cbn [snd].
  - rewrite members_of_del_same. rewrite members_of_set in E.
    symmetry. now apply length_zero_nil.
  - now rewrite members_of_getitem, members_of_set.
  - rewrite members_of_del_same. rewrite members_of_getitem in E.
    apply length_zero_nil in E. now rewrite E.
  - rewrite !members_of_getitem. symmetry. now apply del_absent.
Qed.

Lemma keys_del_notin {V : Type} (ws : conn) (d : Dict.t conn V) :
  ~ In ws (Dict.keys (Dict.del ws d)).
Proof.
  rewrite keys_del. intros Hin. apply filter_In in Hin.
  destruct Hin as [_ Hk]. now rewrite keqb_refl in Hk.
Qed.

Lemma drop_all_keys_incl l m : incl (Dict.keys (drop_all l m)) (Dict.keys m).
Proof.
  rewrite drop_all_filter. intros c Hc. unfold Dict.keys in *.
  apply in_map_iff in Hc. destruct Hc as [x [Hx Hin]].
  apply filter_In in Hin. apply in_map_iff. exists x. tauto.
Qed.

Section Leaving.
Variable send_ok : nat -> conn -> bool.

(** The trace of the [finally] block: the leave notice to the members
    left, then the room list to those of them whose send returned. *)
Lemma cleanup_trace room ws w :
  let mem := members_of room (rooms w) in
  let left := match Dict.get ws mem with
              | Some i => nick i
              | None => "Someone"
              end in
  exists notices lists room_list,
    log (cleanup send_ok room ws w) = log w ++ notices ++ lists
    /\ map to notices = Dict.keys (Dict.del ws mem)
    /\ Forall (fun a => env a = leave_notice left) notices
    /\ Forall (fun a => env a = RoomsEnv room_list) lists
    /\ incl (map to lists) (Dict.keys (Dict.del ws mem))
    /\ incl (Dict.keys (members_of room (rooms (cleanup send_ok room ws w))))
         (Dict.keys (Dict.del ws mem)).
Proof.
  intros mem left. rewrite cleanup_unguarded.
  pose proof (deregister_left room ws (rooms w)) as Hl.
  pose proof (deregister_members room ws (rooms w)) as Hm.
  destruct (deregister room ws (rooms w)) as [left' r]. simpl in Hl, Hm.
  fold mem in Hl, Hm. fold left in Hl. subst left'.
  set (w1 := broadcast send_ok room (leave_notice left) (set_rooms r w)).
  assert (Hl1 : log w1 = log w ++ attempts send_ok (length (log w))
                                    (Dict.keys (Dict.del ws mem))
                                    (leave_notice left)).
  { unfold w1. rewrite broadcast_log. unfold set_rooms. cbn [rooms log].
    now rewrite Hm. }
  assert (Hm1 : incl (Dict.keys (members_of room (rooms w1)))
                  (Dict.keys (Dict.del ws mem))).
  { unfold w1. rewrite broadcast_members_of. unfold set_rooms.
    cbn [rooms log]. rewrite Hm. apply drop_all_keys_incl. }
  cbn zeta.
  exists (attempts send_ok (length (log w)) (Dict.keys (Dict.del ws mem))
            (leave_notice left)).
  exists (attempts send_ok (length (log w1))
            (Dict.keys (members_of room (rooms w1)))
            (RoomsEnv (active_rooms (rooms w1)))).
  exists (active_rooms (rooms w1)).
  split. { rewrite broadcast_log, Hl1. now rewrite <- app_assoc. }
  split; [apply attempts_to|].
  split; [apply attempts_env|].
  split; [apply attempts_env|].
  split. { now rewrite attempts_to. }
  rewrite broadcast_members_of.
  intros c Hc. apply Hm1. revert Hc. apply drop_all_keys_incl.
Qed.

(** X3.  The leave notice goes, first and in the order of the room, to
    every member but the one that leaves, with the nickname the
    registry holds for it, or [Someone] when it holds none (the
    connection had been pruned); the only other envelopes of the
    cleanup are copies of one room list. *)
Theorem cleanup_announces_departure room ws w :
  let mem := members_of room (rooms w) in
  let left := match Dict.get ws mem with
              | Some i => nick i
              | None => "Someone"
              end in
  exists notices lists room_list,
    log (cleanup send_ok room ws w) = log w ++ notices ++ lists
    /\ map to notices = Dict.keys (Dict.del ws mem)
    /\ Forall (fun a => env a
                        = System (left ++ " left.") "System" "#666" "leave")
         notices
    /\ Forall (fun a => env a = RoomsEnv room_list) lists.
Proof.
  intros mem left.
  destruct (cleanup_trace room ws w)
    as [notices [lists [l [Hlog [Hto [Hn [Hl _]]]]]]].
  exists notices, lists, l. auto.
Qed.

(** X4.  The connection that leaves is out of its room afterwards, and the
    cleanup sends it nothing. *)
Theorem cleanup_removes_the_leaver room ws w :
  let w' := cleanup send_ok room ws w in
  Dict.contains ws (members_of room (rooms w')) = false
  /\ exists new, log w' = log w ++ new /\ Forall (fun a => to a <> ws) new.
Proof.
  intros w'. subst w'.
  destruct (cleanup_trace room ws w)
    as [notices [lists [l [Hlog [Hto [_ [_ [Hin Hm]]]]]]]].
  pose proof (@keys_del_notin Info ws (members_of room (rooms w))) as Hn.
  split.
  - destruct (Dict.contains ws _) eqn:E; auto.
    apply contains_keys in E. apply Hm in E. tauto.
  - exists (notices ++ lists). split; auto.
    apply Forall_forall. intros a Ha Heq. apply Hn.
    apply in_app_or in Ha. destruct Ha as [Ha|Ha].
    + rewrite <- Hto, <- Heq. now apply in_map.
    + apply Hin. rewrite <- Heq. now apply in_map.
Qed.

End Leaving.

(** ** Joining *)

Lemma register_del room ws info r :
  Dict.del room (register room ws info r) = Dict.del room r.
Proof.
  unfold register. rewrite getitem_eq. now rewrite del_set_same, getitem_del.
Qed.

Lemma register_get room ws info r :
  Dict.get room (register room ws info r)
  = Some (Dict.set ws info (members_of room r)).
Proof. unfold register. rewrite getitem_eq. apply get_set_same. Qed.

Section Joining.
Variable send_ok : nat -> conn -> bool.
Variable json_loads : string -> option json.

(** X5.  When the send of the meta envelope raises, the exception is not
    caught: the handler ends there.  No frame is read, nobody is told
    anything, and no cleanup runs, so the connection stays registered
    in the room (until a broadcast prunes it). *)
Theorem meta_failure_leaves_a_stale_member q ws b1 b2 hue events w :
  send_ok (length (log w)) ws = false ->
  let room := resolve_room q in
  let info := make_info b1 b2 hue in
  websocket_endpoint send_ok json_loads q ws b1 b2 hue events w
  = (mkWorld (register room ws info (rooms w))
       (log w ++ [mkAttempt ws (Meta info) false]), false)
  /\ Dict.get ws (members_of room (register room ws info (rooms w)))
     = Some info.
Proof.
  intros Hf room info. split.
  - unfold websocket_endpoint, join, send_text. fold room. fold info.
    cbn [log rooms set_rooms]. now rewrite Hf.
  - rewrite register_members. apply get_set_same.
Qed.

(** X6.  When every send returns, a join registers the connection and
    touches nothing else in the registry; the joiner gets its meta
    envelope, then every member of the room, the joiner included and
    in the order of the room, gets the join notice, then every member
    gets the list of the rooms with members, the joined one among
    them. *)
Theorem join_all_delivered room ws info w :
  (forall t c, send_ok t c = true) ->
  let r' := register room ws info (rooms w) in
  let everyone := Dict.keys (Dict.set ws info (members_of room (rooms w))) in
  join send_ok room ws info w
  = (mkWorld r'
       (log w
        ++ mkAttempt ws (Meta info) true
           :: map (fun c => mkAttempt c (join_notice info) true) everyone
        ++ map (fun c => mkAttempt c (RoomsEnv (active_rooms r')) true) everyone),
     true)
  /\ In room (active_rooms r').
Proof.
  intros Hok r' everyone. split.
  - unfold join, send_text. cbn [log rooms set_rooms]. rewrite Hok.
    fold r'.
    rewrite (@broadcast_all_ok send_ok room (join_notice info) _
               (Dict.set ws info (members_of room (rooms w))));
      [|apply register_get|intros; apply Hok].
    cbn [rooms].
    rewrite (@broadcast_all_ok send_ok room _ _
               (Dict.set ws info (members_of room (rooms w))));
      [|apply register_get|intros; apply Hok].
    cbn [rooms log]. fold everyone. f_equal. f_equal.
    rewrite <- !app_assoc. reflexivity.
  - apply active_rooms_In.
    exists (Dict.set ws info (members_of room (rooms w))). split.
    + apply get_In, register_get.
    + destruct (members_of room (rooms w)) as [|[k v] m]; simpl; [lia|].
      destruct (Nat.eqb k ws); simpl; lia.
Qed.

End Joining.

(** ** What a handler does to the rest of the server *)

Lemma get_keys {V : Type} (c : conn) (d : Dict.t conn V) :
  In c (Dict.keys d) <-> exists v, Dict.get c d = Some v.
Proof.
  rewrite <- contains_keys. unfold Dict.contains.
  destruct (Dict.get c d) as [v|]; split; try congruence.
  - intros _. now exists v.
  - intros [v Hv]. discriminate.
Qed.

Lemma members_within_keys room r r' :
  members_within room r r' ->
  incl (Dict.keys (members_of room r')) (Dict.keys (members_of room r)).
Proof.
  intros Hw c Hc. apply get_keys in Hc. destruct Hc as [i Hi].
  apply get_keys. exists i. now apply Hw.
Qed.

Lemma get_del_Some {V : Type} (ws c : conn) (i : V) (d : Dict.t conn V) :
  Dict.get c (Dict.del ws d) = Some i -> c <> ws /\ Dict.get c d = Some i.
Proof.
  intros Hg. destruct (Nat.eq_dec ws c) as [->|Hn].
  - now rewrite get_del_same in Hg.
  - rewrite get_del_other in Hg by assumption. split; congruence.
Qed.

Lemma drop_all_get_Some l m c i :
  Dict.get c (drop_all l m) = Some i -> Dict.get c m = Some i.
Proof.
  rewrite drop_all_get. now destruct (existsb (Nat.eqb c) l).
Qed.

Lemma str_take_le n s : String.length (str_take n s) <= n.
Proof.
  revert n. induction s as [|c s IH]; intros [|n]; simpl; try lia.
  specialize (IH n). lia.
Qed.

Lemma slice2000_bounded v text n c :
  slice2000 v = Some text -> short_text (Msg text n c).
Proof.
  unfold slice2000. destruct v; try discriminate.
  - generalize (str_take_le 2000 s). generalize (str_take 2000 s).
    intros t Ht [= <-]. exact Ht.
  - generalize (firstn_le_length 2000 l). generalize (firstn 2000 l).
    intros t Ht [= <-]. exact Ht.
Qed.

Section Quiet.
Variable send_ok : nat -> conn -> bool.
Variable json_loads : string -> option json.

Lemma quiet_refl room w : quiet_step room w w.
Proof.
  split; [|split]; auto.
  - exists []. split; [now rewrite app_nil_r|constructor].
  - intros c i Hg. exact Hg.
Qed.

Lemma quiet_trans room w1 w2 w3 :
  quiet_step room w1 w2 -> quiet_step room w2 w3 -> quiet_step room w1 w3.
Proof.
  intros [[n1 [Hl1 Hf1]] [Hm1 Hd1]] [[n2 [Hl2 Hf2]] [Hm2 Hd2]].
  split; [|split].
  - exists (n1 ++ n2). split; [rewrite Hl2, Hl1; now rewrite app_assoc|].
    apply Forall_app. split; auto.
    eapply Forall_impl; [|exact Hf2]. intros a [Hin Hrest]. split; auto.
    now apply (members_within_keys Hm1).
  - intros c i Hg. apply Hm1, Hm2, Hg.
  - congruence.
Qed.

Lemma quiet_broadcast room m w :
  short_text m -> is_meta m = false ->
  quiet_step room w (broadcast send_ok room m w).
Proof.
  intros Hs Hm. split; [|split].
  - exists (attempts send_ok (length (log w))
              (Dict.keys (members_of room (rooms w))) m).
    split; [apply broadcast_log|].
    apply Forall_forall. intros a Ha.
    pose proof (attempts_to send_ok (length (log w))
                  (Dict.keys (members_of room (rooms w))) m) as Hto.
    pose proof (attempts_env send_ok (length (log w))
                  (Dict.keys (members_of room (rooms w))) m) as Henv.
    rewrite Forall_forall in Henv. rewrite (Henv a Ha).
    split; auto. rewrite <- Hto. now apply in_map.
  - intros c i. rewrite broadcast_members_of. apply drop_all_get_Some.
  - apply broadcast_frame.
Qed.

Lemma quiet_set_rooms room w r :
  members_of room r = members_of room (rooms w) ->
  Dict.del room r = Dict.del room (rooms w) ->
  quiet_step room w (set_rooms r w).
Proof.
  intros Hm Hd. split; [|split]; auto.
  - exists []. split; [simpl; now rewrite app_nil_r|constructor].
  - intros c i. simpl. now rewrite Hm.
Qed.

Lemma quiet_on_text room ws info data w w' :
  on_text send_ok json_loads room ws info data w = Some w' ->
  quiet_step room w w'.
Proof.
  unfold on_text.
  destruct (match json_loads data with Some p => p | None => _ end);
    try discriminate.
  destruct (is_msg _); [|intros [= <-]; apply quiet_refl].
  destruct (slice2000 _) as [text|] eqn:Es; try discriminate.
  rewrite getitem_eq. intros [= <-].
  eapply quiet_trans.
  - apply quiet_set_rooms; [apply members_of_getitem|apply getitem_del].
  - apply quiet_broadcast; [|reflexivity]. eapply slice2000_bounded, Es.
Qed.

Lemma quiet_cleanup room ws w :
  quiet_step room w (cleanup send_ok room ws w).
Proof.
  rewrite cleanup_unguarded.
  pose proof (deregister_members room ws (rooms w)) as Hm.
  pose proof (deregister_del room ws (rooms w)) as Hd.
  destruct (deregister room ws (rooms w)) as [left r]. simpl in Hm, Hd.
  assert (H0 : quiet_step room w (set_rooms r w)).
  { split; [|split]; auto.
    - exists []. split; [simpl; now rewrite app_nil_r|constructor].
    - intros c i. simpl. rewrite Hm. intros Hg.
      now apply get_del_Some in Hg. }
  eapply quiet_trans; [exact H0|]. cbn zeta.
  eapply quiet_trans; apply quiet_broadcast; simpl; auto.
Qed.

Lemma quiet_relay_step room ws info ev w :
  quiet_step room w (fst (relay_step send_ok json_loads room ws info ev w)).
Proof.
  destruct ev as [data|]; simpl; [|apply quiet_cleanup].
  destruct (on_text send_ok json_loads room ws info data w) eqn:E; simpl.
  - eapply quiet_on_text, E.
  - apply quiet_cleanup.
Qed.

Lemma quiet_relay room ws info events w :
  quiet_step room w (fst (relay send_ok json_loads room ws info events w)).
Proof.
  revert w. induction events as [|ev rest IH]; intros w; simpl.
  - apply quiet_refl.
  - pose proof (quiet_relay_step room ws info ev w) as Hs.
    destruct (relay_step send_ok json_loads room ws info ev w) as [w' going].
    simpl in Hs. destruct going; simpl; auto.
    eapply quiet_trans; [exact Hs|apply IH].
Qed.

End Quiet.

(** ** A whole session *)



Lemma resolve_room_not_empty q : resolve_room q <> "".
Proof.
  unfold resolve_room. destruct q as [s|]; [|discriminate].
  destruct (String.eqb_spec s ""); [discriminate|assumption].
Qed.

Section Session.
Variable send_ok : nat -> conn -> bool.
Variable json_loads : string -> option json.

(** A session is a registration, the send of the meta envelope, and
    then nothing but quiet steps. *)
Lemma session_shape q ws b1 b2 hue events w :
  let room := resolve_room q in
  let info := make_info b1 b2 hue in
  exists b,
    quiet_step room
      (mkWorld (register room ws info (rooms w))
         (log w ++ [mkAttempt ws (Meta info) b]))
      (fst (websocket_endpoint send_ok json_loads q ws b1 b2 hue events w)).
Proof.
  intros room info. exists (send_ok (length (log w)) ws).
  unfold websocket_endpoint, join, send_text. fold room. fold info.
  cbn [log rooms set_rooms].
  destruct (send_ok (length (log w)) ws); cbn [fst]; [|apply quiet_refl].
  eapply quiet_trans; [|apply quiet_relay].
  eapply quiet_trans; apply quiet_broadcast; simpl; auto.
Qed.

Lemma relay_step_stops room ws info ev w :
  snd (relay_step send_ok json_loads room ws info ev w) = false ->
  fst (relay_step send_ok json_loads room ws info ev w)
  = cleanup send_ok room ws w.
Proof.
  destruct ev as [data|]; simpl; auto.
  now destruct (on_text send_ok json_loads room ws info data w).
Qed.

Lemma cleanup_not_member room ws w :
  Dict.contains ws (members_of room (rooms (cleanup send_ok room ws w))) = false.
Proof.
  destruct (cleanup_trace send_ok room ws w)
    as [notices [lists [l [_ [_ [_ [_ [_ Hm]]]]]]]].
  destruct (Dict.contains ws _) eqn:E; auto.
  apply contains_keys in E. apply Hm in E.
  now apply keys_del_notin in E.
Qed.

Lemma relay_stops_removed room ws info events w :
  snd (relay send_ok json_loads room ws info events w) = false ->
  Dict.contains ws
    (members_of room
       (rooms (fst (relay send_ok json_loads room ws info events w)))) = false.
Proof.
  revert w. induction events as [|ev rest IH]; intros w; simpl; [discriminate|].
  pose proof (@relay_step_stops room ws info ev w) as Hs.
  destruct (relay_step send_ok json_loads room ws info ev w) as [w' going].
  simpl in Hs. destruct going; simpl; [apply IH|].
  intros _. rewrite Hs by reflexivity. apply cleanup_not_member.
Qed.

(** X9.  A handler leaves the entries of all the rooms but its own as they
    were, in the same order; and its own room is never the one with the
    empty name, whose binding therefore never changes. *)
Theorem session_leaves_other_rooms q ws b1 b2 hue events w :
  let room := resolve_room q in
  let w' := fst (websocket_endpoint send_ok json_loads q ws b1 b2 hue events w) in
  Dict.del room (rooms w') = Dict.del room (rooms w)
  /\ (forall R, R <> room -> Dict.get R (rooms w') = Dict.get R (rooms w))
  /\ Dict.get "" (rooms w') = Dict.get "" (rooms w).
Proof.
  intros room w'. subst w'.
  destruct (session_shape q ws b1 b2 hue events w) as [b [_ [_ Hd]]].
  cbn [log rooms] in Hd. fold room in Hd. rewrite register_del in Hd.
  split; [exact Hd|]. split.
  - intros R Hn. apply get_via_del with room; [congruence|exact Hd].
  - apply get_via_del with room; [apply resolve_room_not_empty|exact Hd].
Qed.

(** X10.  The first thing a handler sends is the meta envelope, to its own
    connection; it never sends another one, and every msg envelope it
    sends has a text of at most 2000 characters (or items), whether
    the frame was decoded or taken as bare text. *)
Theorem session_envelopes q ws b1 b2 hue events w :
  let w' := fst (websocket_endpoint send_ok json_loads q ws b1 b2 hue events w) in
  exists b rest,
    log w' = log w ++ mkAttempt ws (Meta (make_info b1 b2 hue)) b :: rest
    /\ Forall (fun a => is_meta (env a) = false /\ short_text (env a)) rest.
Proof.
  intros w'. subst w'.
  destruct (session_shape q ws b1 b2 hue events w)
    as [b [[new [Hlog Hf]] _]].
  cbn [log rooms] in *. exists b, new. split.
  - rewrite Hlog, <- app_assoc. reflexivity.
  - eapply Forall_impl; [|exact Hf]. intros a [_ [Hs Hm]]. now split.
Qed.

(** X12.  A handler that has delivered its meta envelope and has ended has
    taken its connection out of the room. *)
Theorem ended_session_has_left q ws b1 b2 hue events w :
  send_ok (length (log w)) ws = true ->
  snd (websocket_endpoint send_ok json_loads q ws b1 b2 hue events w) = false ->
  Dict.contains ws
    (members_of (resolve_room q)
       (rooms (fst (websocket_endpoint send_ok json_loads q ws b1 b2 hue
                      events w)))) = false.
Proof.
  intros Hok. unfold websocket_endpoint, join, send_text.
  cbn [log rooms set_rooms]. rewrite Hok. apply relay_stops_removed.
Qed.

End Session.

(** ** Frames at the edges of the protocol *)

Section Frames.
Variable send_ok : nat -> conn -> bool.
Variable json_loads : string -> option json.

(** X14.  Frames that decode to an object of another type than [msg] are read
    and dropped: however many of them come, nothing is sent, the
    registry is not touched (not even read) and the loop goes on. *)
Theorem other_types_are_ignored room ws info events w :
  Forall (fun ev => exists data o,
              ev = Text data
              /\ json_loads data = Some (JObj o)
              /\ is_msg (Dict.get "type" o) = false) events ->
  relay send_ok json_loads room ws info events w = (w, true).
Proof.
  induction 1 as [|ev rest [data [o [-> [Hl Ht]]]] _ IH]; simpl; auto.
  unfold on_text. now rewrite Hl, Ht.
Qed.

(** X15.  A connection that a broadcast has pruned from its room can still
    speak: its message goes to the members of the room, under the
    identity its handler kept from the join; it is not sent its own
    message, and speaking does not make it a member again. *)
Theorem pruned_sender_still_relays room ws info data w o v text :
  json_loads data = Some (JObj o) ->
  is_msg (Dict.get "type" o) = true ->
  Dict.get "text" o = Some v ->
  slice2000 v = Some text ->
  Dict.get ws (members_of room (rooms w)) = None ->
  exists w' new,
    relay_step send_ok json_loads room ws info (Text data) w = (w', true)
    /\ log w' = log w ++ new
    /\ map to new = Dict.keys (members_of room (rooms w))
    /\ Forall (fun a => env a = Msg text (nick info) (color info)) new
    /\ ~ In ws (map to new)
    /\ Dict.get ws (members_of room (rooms w')) = None.
Proof.
  intros Hl Ht Hv Hs Hg.
  assert (He : sender_of room ws info (rooms w) = info).
  { unfold sender_of. now rewrite Hg. }
  eexists. eexists. split.
  { unfold relay_step.
    rewrite (@on_text_msg send_ok json_loads room ws info data w o v text
               Hl Ht Hv Hs). reflexivity. }
  rewrite He. split; [apply relayed_log|].
  split; [apply attempts_to|]. split; [apply attempts_env|].
  rewrite attempts_to. split.
  - now apply get_None_keys.
  - rewrite broadcast_members_of. unfold set_rooms. cbn [rooms log].
    rewrite members_of_getitem, drop_all_get, Hg.
    now destruct (existsb _ _).
Qed.

(** X16.  A msg envelope without a text is relayed with the empty text: the
    server does not refuse empty messages. *)
Theorem missing_text_is_empty room ws info data w o :
  json_loads data = Some (JObj o) ->
  is_msg (Dict.get "type" o) = true ->
  Dict.get "text" o = None ->
  exists w' new,
    relay_step send_ok json_loads room ws info (Text data) w = (w', true)
    /\ log w' = log w ++ new
    /\ map to new = Dict.keys (members_of room (rooms w))
    /\ Forall (fun a => exists n c, env a = Msg (JStr "") n c) new.
Proof.
  intros Hl Ht Hv.
  eexists. eexists. split.
  { unfold relay_step, on_text. rewrite Hl, Ht, Hv. cbn [slice2000 str_take].
    rewrite getitem_eq. reflexivity. }
  split; [apply relayed_log|]. split; [apply attempts_to|].
  eapply Forall_impl; [|apply attempts_env].
  intros a Ha. simpl in Ha. eauto.
Qed.

End Frames.

(** ** The client's escaping *)

Lemma string_app_assoc (a b c : string) :
  ((a ++ b) ++ c = a ++ (b ++ c))%string.
Proof. induction a as [|x a IH]; simpl; congruence. Qed.

Lemma replace_char_app c rep a b :
  replace_char c rep (a ++ b)
  = (replace_char c rep a ++ replace_char c rep b)%string.
Proof.
  induction a as [|x a IH]; simpl; auto.
  destruct (Ascii.eqb x c); rewrite IH; simpl; auto.
  now rewrite string_app_assoc.
Qed.

Lemma esc_char_cases c :
  (c = "&"%char /\ esc_char c = "&amp;")
  \/ (c = "<"%char /\ esc_char c = "&lt;")
  \/ (c = ">"%char /\ esc_char c = "&gt;")
  \/ (c <> "&"%char /\ c <> "<"%char /\ c <> ">"%char
      /\ esc_char c = String c EmptyString).
Proof.
  unfold esc_char.
  destruct (Ascii.eqb_spec c "&"); [now left|].
  destruct (Ascii.eqb_spec c "<"); [now right; left|].
  destruct (Ascii.eqb_spec c ">"); [now right; right; left|].
  now right; right; right.
Qed.

Lemma esc_cons c r : esc (String c r) = (esc_char c ++ esc r)%string.
Proof.
  unfold esc.
  destruct (esc_char_cases c) as [[-> ->]|[[-> ->]|[[-> ->]|[H1 [H2 [H3 ->]]]]]];
    try reflexivity.
  apply Ascii.eqb_neq in H1, H2, H3.
  cbn [replace_char]. rewrite H1. cbn [replace_char]. rewrite H2.
  cbn [replace_char]. rewrite H3. reflexivity.
Qed.

(** X17.  The three replacements in a row amount to one pass that turns each
    character into its entity: the ampersands that the first one
    writes are not touched by the next two. *)
Lemma esc_single_pass s : esc s = escape_each s.
Proof.
  induction s as [|c r IH]; [reflexivity|].
  rewrite esc_cons, IH. reflexivity.
Qed.

Lemma list_ascii_app (a b : string) :
  list_ascii_of_string (a ++ b)
  = list_ascii_of_string a ++ list_ascii_of_string b.
Proof. induction a as [|x a IH]; simpl; congruence. Qed.

(** X18.  An escaped text has no angle bracket left, so the page, which
    writes it as HTML, cannot be made to open a tag by a message. *)
Theorem esc_leaves_no_angle_bracket s :
  ~ In "<"%char (list_ascii_of_string (esc s))
  /\ ~ In ">"%char (list_ascii_of_string (esc s)).
Proof.
  induction s as [|c r [IH1 IH2]]; [simpl; tauto|].
  rewrite esc_cons, list_ascii_app.
  split; intros Hin; apply in_app_or in Hin; destruct Hin as [Hin|Hin];
    try tauto;
    destruct (esc_char_cases c)
      as [[-> E]|[[-> E]|[[-> E]|[H1 [H2 [H3 E]]]]]];
    rewrite E in Hin; simpl in Hin;
    intuition (try discriminate; congruence).
Qed.

(** X19.  On strings, escaping loses nothing: two strings with the same
    escaped form are the same string; and a string without ampersand
    and angle bracket is its own escaped form.  (A text that is not a
    string, such as the list that the server relays for a list, is
    first turned into a string by [String(s)]; that step, which is not
    part of this statement, is not injective.) *)
Theorem esc_is_injective s t :
  (esc s = esc t <-> s = t)
  /\ ((forall c, In c (list_ascii_of_string s) ->
         c <> "&"%char /\ c <> "<"%char /\ c <> ">"%char) ->
      esc s = s).
Proof.
  split; [split; [|now intros ->]|].
  - revert t. induction s as [|c s IH]; intros [|d t].
    + reflexivity.
    + rewrite esc_cons.
      destruct (esc_char_cases d)
        as [[-> ->]|[[-> ->]|[[-> ->]|[_ [_ [_ ->]]]]]]; discriminate.
    + rewrite esc_cons.
      destruct (esc_char_cases c)
        as [[-> ->]|[[-> ->]|[[-> ->]|[_ [_ [_ ->]]]]]]; discriminate.
    + rewrite !esc_cons.
      destruct (esc_char_cases c)
        as [[-> ->]|[[-> ->]|[[-> ->]|[H1 [H2 [H3 ->]]]]]];
        destruct (esc_char_cases d)
          as [[-> ->]|[[-> ->]|[[-> ->]|[G1 [G2 [G3 ->]]]]]];
        simpl; intros Heq; try discriminate;
        try (injection Heq as Heq; f_equal; now apply IH);
        try (injection Heq as Hc Heq; congruence).
      injection Heq as -> Heq. f_equal. now apply IH.
  - induction s as [|c s IH]; intros Hsafe; [reflexivity|].
    rewrite esc_cons, IH by (intros x Hx; apply Hsafe; now right).
    destruct (Hsafe c (or_introl eq_refl)) as [H1 [H2 H3]].
    destruct (esc_char_cases c)
      as [[-> _]|[[-> _]|[[-> _]|[_ [_ [_ ->]]]]]]; try congruence.
    reflexivity.
Qed.

(** ** A joiner whose connection holds *)

Section LiveJoiner.
Variable send_ok : nat -> conn -> bool.

Lemma failed_not_live t conns ws :
  (forall t', send_ok t' ws = true) -> ~ In ws (failed send_ok t conns).
Proof.
  intros Hok. revert t. induction conns as [|c rest IH]; intros t; simpl; auto.
  destruct (send_ok t c) eqn:E; [apply IH|].
  intros [->|Hin]; [|now apply IH in Hin].
  rewrite Hok in E. discriminate.
Qed.

Lemma broadcast_keeps_live room m w ws i :
  (forall t, send_ok t ws = true) ->
  Dict.get ws (members_of room (rooms w)) = Some i ->
  Dict.get ws (members_of room (rooms (broadcast send_ok room m w))) = Some i.
Proof.
  intros Hok Hg. rewrite broadcast_members_of, drop_all_keeps; auto.
  now apply failed_not_live.
Qed.

(** X7.  Whatever happens to the sends to the others, a client whose own
    sends return comes out of the join as a member of its room, under
    the identity of its meta envelope, and the room is in the
    listing. *)
Theorem live_joiner_becomes_member room ws info w :
  (forall t, send_ok t ws = true) ->
  let w' := fst (join send_ok room ws info w) in
  snd (join send_ok room ws info w) = true
  /\ Dict.get ws (members_of room (rooms w')) = Some info
  /\ In room (list_rooms w').
Proof.
  intros Hok w'. subst w'. unfold join, send_text.
  cbn [log rooms set_rooms]. rewrite Hok. cbn [fst snd].
  split; [reflexivity|].
  match goal with
  | |- Dict.get ws (members_of room (rooms ?x)) = _ /\ _ =>
      assert (Hg : Dict.get ws (members_of room (rooms x)) = Some info)
  end.
  { apply broadcast_keeps_live, broadcast_keeps_live; auto.
    cbn [rooms]. rewrite register_members. apply get_set_same. }
  split; [exact Hg|].
  unfold list_rooms. apply active_rooms_In.
  match type of Hg with
  | Dict.get ws (members_of room ?r) = _ =>
      exists (members_of room r); split
  end.
  - unfold members_of in *.
    match goal with
    | |- In (room, match ?g with _ => _ end) _ =>
        destruct g as [m|] eqn:E; [now apply get_In|discriminate]
    end.
  - apply get_In, In_keys in Hg.
    match type of Hg with
    | In _ (Dict.keys ?m) => destruct m; simpl in *; [tauto|lia]
    end.
Qed.

End LiveJoiner.

(** ** The further properties at concrete inputs *)

Lemma broadcast_unknown_room_witness :
  Dict.get "ghost" (rooms w_general) = None
  /\ broadcast all_ok "ghost" (RoomsEnv []) w_general
     = mkWorld (rooms w_general ++ [("ghost", [])]) (log w_general).
Proof.
  split; [reflexivity|].
  apply (@broadcast_unknown_room all_ok "ghost" (RoomsEnv []) w_general).
  reflexivity.
Defined.

Lemma broadcast_all_delivered_witness :
  Dict.get "general" (rooms w_pair) = Some [(1, anon); (2, anon2)]
  /\ broadcast all_ok "general" (RoomsEnv ["general"]) w_pair
     = mkWorld (rooms w_pair)
         (log w_pair
          ++ map (fun c => mkAttempt c (RoomsEnv ["general"]) true)
               (Dict.keys [(1, anon); (2, anon2)])).
Proof.
  split; [reflexivity|].
  apply (@broadcast_all_delivered all_ok "general" (RoomsEnv ["general"])
           w_pair [(1, anon); (2, anon2)]).
  - reflexivity.
  - intros t c _. reflexivity.
Defined.

Lemma meta_failure_leaves_a_stale_member_witness :
  ok_until 0 (length (log w_start)) 1 = false
  /\ websocket_endpoint (ok_until 0) loads_sample (Some "general") 1
       xa7 x0c 212 [Text "hello"] w_start
     = (mkWorld (register "general" 1 anon (rooms w_start))
          (log w_start ++ [mkAttempt 1 (Meta anon) false]), false)
  /\ Dict.get 1 (members_of "general"
                   (register "general" 1 anon (rooms w_start)))
     = Some anon.
Proof.
  split; [reflexivity|].
  apply (@meta_failure_leaves_a_stale_member (ok_until 0) loads_sample
           (Some "general") 1 xa7 x0c 212 [Text "hello"] w_start).
  reflexivity.
Defined.

Lemma join_all_delivered_witness :
  (forall t c, all_ok t c = true)
  /\ join all_ok "general" 2 anon2 w_general
     = (mkWorld [("general", [(1, anon); (2, anon2)])]
          [mkAttempt 2 (Meta anon2) true;
           mkAttempt 1 (join_notice anon2) true;
           mkAttempt 2 (join_notice anon2) true;
           mkAttempt 1 (RoomsEnv ["general"]) true;
           mkAttempt 2 (RoomsEnv ["general"]) true], true)
  /\ In "general" (active_rooms [("general", [(1, anon); (2, anon2)])]).
Proof.
  split; [reflexivity|].
  apply (@join_all_delivered all_ok "general" 2 anon2 w_general).
  reflexivity.
Defined.

Lemma live_joiner_becomes_member_witness :
  (forall t, dead [1] t 2 = true)
  /\ snd (join (dead [1]) "general" 2 anon2 w_general) = true
  /\ Dict.get 2 (members_of "general"
                   (rooms (fst (join (dead [1]) "general" 2 anon2 w_general))))
     = Some anon2
  /\ In "general" (list_rooms (fst (join (dead [1]) "general" 2 anon2 w_general))).
Proof.
  split; [reflexivity|].
  apply (@live_joiner_becomes_member (dead [1]) "general" 2 anon2 w_general).
  reflexivity.
Defined.

Lemma ended_session_has_left_witness :
  all_ok (length (log w_start)) 1 = true
  /\ snd (websocket_endpoint all_ok loads_sample None 1 xa7 x0c 212
            [Text "hello"; Disconnect] w_start) = false
  /\ Dict.contains 1
       (members_of (resolve_room None)
          (rooms (fst (websocket_endpoint all_ok loads_sample None 1
                         xa7 x0c 212 [Text "hello"; Disconnect] w_start))))
     = false.
Proof.
  split; [reflexivity|]. split; [reflexivity|].
  apply (@ended_session_has_left all_ok loads_sample None 1 xa7 x0c 212
           [Text "hello"; Disconnect] w_start); reflexivity.
Defined.

Lemma other_types_are_ignored_witness :
  Forall (fun ev => exists data o,
              ev = Text data
              /\ loads_more data = Some (JObj o)
              /\ is_msg (Dict.get "type" o) = false)
    [Text ping_frame; Text ping_frame]
  /\ relay all_ok loads_more "general" 1 anon
       [Text ping_frame; Text ping_frame] w_pair = (w_pair, true).
Proof.
  assert (Hp : exists data o,
             Text ping_frame = Text data
             /\ loads_more data = Some (JObj o)
             /\ is_msg (Dict.get "type" o) = false).
  { exists ping_frame, [("type", JStr "ping")]. repeat split. }
  assert (Hf : Forall (fun ev => exists data o,
                         ev = Text data
                         /\ loads_more data = Some (JObj o)
                         /\ is_msg (Dict.get "type" o) = false)
                 [Text ping_frame; Text ping_frame]).
  { repeat constructor; exact Hp. }
  split; [exact Hf|].
  exact (@other_types_are_ignored all_ok loads_more "general" 1 anon
           [Text ping_frame; Text ping_frame] w_pair Hf).
Defined.

Lemma pruned_sender_still_relays_witness :
  Dict.get 1 (members_of "general" (rooms w_pruned)) = None
  /\ exists w' new,
       relay_step all_ok loads_sample "general" 1 anon (Text hi_frame) w_pruned
       = (w', true)
       /\ log w' = log w_pruned ++ new
       /\ map to new = Dict.keys (members_of "general" (rooms w_pruned))
       /\ Forall (fun a => env a = Msg (JStr "hi") (nick anon) (color anon)) new
       /\ ~ In 1 (map to new)
       /\ Dict.get 1 (members_of "general" (rooms w')) = None.
Proof.
  split; [reflexivity|].
  apply (@pruned_sender_still_relays all_ok loads_sample "general" 1 anon
           hi_frame w_pruned [("type", JStr "msg"); ("text", JStr "hi")]
           (JStr "hi") (JStr "hi")); reflexivity.
Defined.

Lemma missing_text_is_empty_witness :
  loads_more no_text_frame = Some (JObj [("type", JStr "msg")])
  /\ exists w' new,
       relay_step all_ok loads_more "general" 1 anon (Text no_text_frame) w_pair
       = (w', true)
       /\ log w' = log w_pair ++ new
       /\ map to new = Dict.keys (members_of "general" (rooms w_pair))
       /\ Forall (fun a => exists n c, env a = Msg (JStr "") n c) new.
Proof.
  split; [reflexivity|].
  apply (@missing_text_is_empty all_ok loads_more "general" 1 anon
           no_text_frame w_pair [("type", JStr "msg")]); reflexivity.
Defined.

Example esc_sample :
  esc "a<b & c>d" = "a&lt;b &amp; c&gt;d"
  /\ esc "&lt;" = "&amp;lt;".
Proof. split; reflexivity. Qed.

(** ** The registry invariant, as the code keeps it *)









Section Invariant.
Variable send_ok : nat -> conn -> bool.
Variable json_loads : string -> option json.






End Invariant.

Section InvariantClaim.
Variable send_ok : nat -> conn -> bool.
Variable json_loads : string -> option json.


End InvariantClaim.


(** The rooms envelopes of a join into a room with a member, and of the
    cleanup that follows: each lists the rooms with members at that
    moment. *)
Example room_lists_of_a_visit :
  let w1 := fst (join all_ok "other" 3 anon w_two_rooms) in
  received 2 (log w1)
  = [join_notice anon; RoomsEnv ["general"; "other"]]
  /\ received 2 (log (cleanup all_ok "general" 1 w1))
     = [join_notice anon; RoomsEnv ["general"; "other"]]
  /\ list_rooms (cleanup all_ok "general" 1 w1) = ["other"]
  /\ received 2 (log (cleanup all_ok "other" 3 w1))
     = [join_notice anon; RoomsEnv ["general"; "other"];
        leave_notice "Anon-a70c"; RoomsEnv ["general"; "other"]].
Proof. repeat split. Qed.

(** ** One turn of a handler *)

Section Turn.
Variable send_ok : nat -> conn -> bool.
Variable json_loads : string -> option json.




End Turn.

(** Client 3 joins ["general"], where client 1 is: both are sent the
    notice and the list, client 1 keeps its identity; then client 1
    speaks, and what it says goes to both and to nobody in ["other"]. *)
Example turn_sample :
  let w1 := fst (join all_ok "general" 3 anon2 w_two_rooms) in
  map to (log w1) = [3; 1; 3; 1; 3]
  /\ Dict.get 1 (members_of "general" (rooms w1)) = Some anon
  /\ map to (log (fst (relay_step all_ok loads_sample "general" 1 anon
                         (Text "hello") w1)))
     = [3; 1; 3; 1; 3; 1; 3].
Proof. repeat split. Qed.
